(** * Flanking and token distance of [TokenPF2e] (src/module/canvas/token.ts)

    A shallow embedding of [TokenPF2e.canFlank], [TokenPF2e.isFlanking] and
    [TokenPF2e.distanceTo], with the properties of the flanking geometry and
    of the distance measurement stated over it. *)

From Stdlib Require Import QArith Qcanon ZArith List String Bool Lia Lqa DecimalString.
Import ListNotations.

Set Implicit Arguments.
Set Warnings "-notation-for-abbreviation".

(** ** JavaScript numbers

    A [number] is a rational or [NaN]: the code compares and adds pixel
    coordinates and distances, and the only special value it produces or
    tests is [NaN]. Rounding and the infinities are outside the model. *)

Inductive number : Type :=
  | NaN
  | Num (q : Qc).

Definition lift2 (f : Qc -> Qc -> Qc) (a b : number) : number :=
  match a, b with
  | Num p, Num q => Num (f p q)
  | _, _ => NaN
  end.

Definition nadd : number -> number -> number := lift2 Qcplus.
Definition nsub : number -> number -> number := lift2 Qcminus.

(** [a / b]; the source only divides by the literal 2, a zero divisor is
    mapped to [NaN]. *)
Definition ndiv (a b : number) : number :=
  match a, b with
  | Num p, Num q =>
      match (q ?= 0)%Qc with
      | Eq => NaN
      | _ => Num (p / q)%Qc
      end
  | _, _ => NaN
  end.

(** Comparisons: every comparison with [NaN] is false. *)
Definition ncompare (test : comparison -> bool) (a b : number) : bool :=
  match a, b with
  | Num p, Num q => test (p ?= q)%Qc
  | _, _ => false
  end.

Definition nge : number -> number -> bool :=
  ncompare (fun c => match c with Lt => false | _ => true end).
Definition nle : number -> number -> bool :=
  ncompare (fun c => match c with Gt => false | _ => true end).
Definition nlt : number -> number -> bool :=
  ncompare (fun c => match c with Lt => true | _ => false end).

Definition Qcmax (p q : Qc) : Qc :=
  match (p ?= q)%Qc with
  | Lt => q
  | _ => p
  end.

(** [Math.max]. *)
Definition nmax : number -> number -> number := lift2 Qcmax.

Declare Scope js_scope.
Delimit Scope js_scope with js.
Bind Scope js_scope with number.
Notation "a + b" := (nadd a b) : js_scope.
Notation "a - b" := (nsub a b) : js_scope.
Notation "a / b" := (ndiv a b) : js_scope.
Notation "a >= b" := (nge a b) : js_scope.
Notation "a <= b" := (nle a b) : js_scope.
Notation "a < b" := (nlt a b) : js_scope.

Definition int (z : Z) : number := Num (Q2Qc (inject_Z z)).

(** ** Exceptions

    [t.actor!.hasPlayerOwner] reads a property of [t.actor]; the [!] is
    erased at run time, so the read throws a [TypeError] when the actor is
    null. Computations that may throw return a [result]. *)

Inductive Exn : Type := TypeError.

Inductive result (A : Type) : Type :=
  | Ok (a : A)
  | Throw (e : Exn).
Arguments Ok {A} a.
Arguments Throw {A} e.

Definition bind {A B : Type} (m : result A) (k : A -> result B) : result B :=
  match m with
  | Ok a => k a
  | Throw e => Throw e
  end.

Notation "x <- m ;; k" := (bind m (fun x => k))
  (at level 61, m at next level, right associativity).

(** Reading through a reference that may be null. *)
Definition deref {A : Type} (o : option A) : result A :=
  match o with
  | Some a => Ok a
  | None => Throw TypeError
  end.

(** [Array.prototype.every] and [Array.prototype.some]: left to right,
    stopping at the first element that decides the answer. *)
Fixpoint every {A : Type} (f : A -> result bool) (l : list A) : result bool :=
  match l with
  | [] => Ok true
  | a :: l' => b <- f a ;; if b then every f l' else Ok false
  end.

Fixpoint some {A : Type} (f : A -> result bool) (l : list A) : result bool :=
  match l with
  | [] => Ok false
  | a :: l' => b <- f a ;; if b then Ok true else some f l'
  end.

(** [a ?? d] *)
Definition nullish {A : Type} (a : option A) (d : A) : A :=
  match a with
  | Some v => v
  | None => d
  end.

(** ** Data model *)

Module Point.
Record t : Type := mk { x : number; y : number }.
End Point.
Notation Point := Point.t.

(** [PIXI.Rectangle]: stored as origin and extent, the four sides are
    getters. *)
Module Rectangle.
Record t : Type := mk { x : number; y : number; width : number; height : number }.

Definition left (r : t) : number := x r.
Definition right (r : t) : number := (x r + width r)%js.
Definition top (r : t) : number := y r.
Definition bottom (r : t) : number := (y r + height r)%js.
End Rectangle.
Notation Rectangle := Rectangle.t.

(** The purposes [getReach] is asked about; the source passes
    [{ to: "attack" }]. *)
Inductive ReachPurpose : Type := to_interact | to_attack.

(** What the flanking code reads of an actor. *)
Module Actor.
Record t : Type := mk {
  type : string;
  (** [actor instanceof CreaturePF2e] *)
  instanceofCreaturePF2e : bool;
  (** [undefined] is [None] *)
  hasPlayerOwner : option bool;
  canAttack : bool;
  getReach : ReachPurpose -> number
}.
End Actor.
Notation ActorPF2e := Actor.t.

(** What the flanking and distance code reads of a token. [oid] is the
    identity of the object: [a === b] on tokens compares it. *)
Module Token.
Record t : Type := mk {
  oid : nat;
  actor : option ActorPF2e;
  center : Point;
  position : Point;
  bounds : Rectangle;
  x : number;
  y : number;
  w : number;
  h : number
}.

(** [a === b] *)
Definition same (a b : t) : bool := Nat.eqb (oid a) (oid b).
End Token.
Notation TokenPF2e := Token.t.

(** [CONST.GRID_TYPES] *)
Inductive GRID_TYPES : Type :=
  | GRIDLESS | SQUARE | HEXODDR | HEXEVENR | HEXODDQ | HEXEVENQ.

Definition GRID_TYPES_eqb (a b : GRID_TYPES) : bool :=
  match a, b with
  | GRIDLESS, GRIDLESS | SQUARE, SQUARE | HEXODDR, HEXODDR
  | HEXEVENR, HEXEVENR | HEXODDQ, HEXODDQ | HEXEVENQ, HEXEVENQ => true
  | _, _ => false
  end.

(** The global [canvas], as far as the code reads it. *)
Module Canvas.
Record Dimensions : Type := mkDimensions { size : number }.

Record Grid : Type := mkGrid {
  type : GRID_TYPES;
  measureDistance : Point -> Point -> number
}.

Record TokenLayer : Type := mkTokenLayer { placeables : list TokenPF2e }.

Record t : Type := mk {
  dimensions : option Dimensions;
  grid : Grid;
  tokens : TokenLayer
}.
End Canvas.
Notation Canvas := Canvas.t.

(** ** Collaborators *)

(** The result of [foundry.utils.lineCircleIntersection]; the code reads
    [intersections] only. *)
Record LineCircleIntersection : Type := mkLineCircleIntersection {
  intersections : list Point
}.

(** [foundry.utils], the host engine's geometry helpers. *)
Class FoundryUtils : Type := {
  lineCircleIntersection : Point -> Point -> Point -> number -> LineCircleIntersection;
  lineSegmentIntersects : Point -> Point -> Point -> Point -> bool
}.

(** Modelled from the spec: the conversion behind
    [MeasuredTemplatePF2e.measureDistanceRect], whose file is not among the
    sources. Given the cell size and the horizontal and vertical pixel gap
    between two rectangles it yields the Euclidean length of that gap in
    grid-distance units. A square root is not a rational operation, so the
    length and its conversion are one collaborator call. *)
Class GridUnits : Type := {
  euclideanGridDistance : number -> number -> number -> number
}.

Section TokenPF2e.

Context {utils : FoundryUtils} {units : GridUnits}.

(** *** [measureDistanceRect] *)

(** The two rectangles share a point: they overlap or touch. *)
Definition rectanglesMeet (r0 r1 : Rectangle) : bool :=
  (Rectangle.left r0 <= Rectangle.right r1)%js
  && (Rectangle.left r1 <= Rectangle.right r0)%js
  && (Rectangle.top r0 <= Rectangle.bottom r1)%js
  && (Rectangle.top r1 <= Rectangle.bottom r0)%js.

(** The pixel gap between two intervals, 0 when they share a point. *)
Definition gap (lo0 hi0 lo1 hi1 : number) : number :=
  nmax (nmax (lo1 - hi0)%js (lo0 - hi1)%js) (int 0).

Definition gapX (r0 r1 : Rectangle) : number :=
  gap (Rectangle.left r0) (Rectangle.right r0) (Rectangle.left r1) (Rectangle.right r1).

Definition gapY (r0 r1 : Rectangle) : number :=
  gap (Rectangle.top r0) (Rectangle.bottom r0) (Rectangle.top r1) (Rectangle.bottom r1).

(** Modelled from the spec: [MeasuredTemplatePF2e.measureDistanceRect],
    whose file is not among the sources. Zero if the rectangles overlap or
    touch; otherwise the Euclidean distance between the nearest corner or
    edge pair, converted to grid-distance units via the cell size. The
    spec gives [reach] no part in the result. *)
Definition measureDistanceRect (gridSize : number) (r0 r1 : Rectangle)
    (reach : option number) : number :=
  if rectanglesMeet r0 r1 then int 0
  else euclideanGridDistance gridSize (gapX r0 r1) (gapY r0 r1).

(** *** [distanceTo] *)

Definition tokenRect (gridSize : number) (token : TokenPF2e) : Rectangle :=
  Rectangle.mk
    (Token.x token + gridSize / int 2)%js
    (Token.y token + gridSize / int 2)%js
    (Token.w token - gridSize)%js
    (Token.h token - gridSize)%js.

Definition distanceTo (canvas : Canvas) (this target : TokenPF2e)
    (reach : option number) : number :=
  match Canvas.dimensions canvas with
  | None => NaN
  | Some dimensions =>
      if negb (GRID_TYPES_eqb (Canvas.type (Canvas.grid canvas)) SQUARE) then
        Canvas.measureDistance (Canvas.grid canvas)
          (Token.position this) (Token.position target)
      else
        let gridSize := Canvas.size dimensions in
        measureDistanceRect gridSize
          (tokenRect gridSize this) (tokenRect gridSize target) reach
  end.

(** *** [canFlank] *)

(** [["character", "npc"].includes(s)] *)
Definition includes (l : list string) (s : string) : bool :=
  existsb (String.eqb s) l.

(** [(t) => t.actor!.hasPlayerOwner ?? false] *)
Definition playerOwned (t : TokenPF2e) : result bool :=
  a <- deref (Token.actor t) ;;
  Ok (nullish (Actor.hasPlayerOwner a) false).

Definition canFlank (canvas : Canvas) (this flankee : TokenPF2e) : result bool :=
  if Token.same this flankee then Ok false
  else if negb (match Token.actor this with
                | Some a => includes ["character"; "npc"]%string (Actor.type a)
                | None => false
                end) then Ok false
  else if negb (match Token.actor flankee with
                | Some a => Actor.instanceofCreaturePF2e a
                | None => false
                end) then Ok false
  else
    allOwned <- every playerOwned [this; flankee] ;;
    areAlliedTokens <-
      (if allOwned then Ok true
       else anyOwned <- some playerOwned [this; flankee] ;; Ok (negb anyOwned)) ;;
    if areAlliedTokens then Ok false
    else
      a <- deref (Token.actor this) ;;
      let reach := Actor.getReach a to_attack in
      Ok (Actor.canAttack a
          && (reach >= distanceTo canvas this flankee (Some reach))%js).

(** *** [isFlanking] *)

Definition areOnOppositeCorners (flankerA flankerB flankee : TokenPF2e) : bool :=
  Nat.ltb 0
    (List.length (intersections
               (lineCircleIntersection (Token.center flankerA) (Token.center flankerB)
                  (Token.center flankee) (int 1)))).

Definition leftSide (bounds : Rectangle) : Point * Point :=
  (Point.mk (Rectangle.left bounds) (Rectangle.top bounds),
   Point.mk (Rectangle.left bounds) (Rectangle.bottom bounds)).

Definition rightSide (bounds : Rectangle) : Point * Point :=
  (Point.mk (Rectangle.right bounds) (Rectangle.top bounds),
   Point.mk (Rectangle.right bounds) (Rectangle.bottom bounds)).

Definition topSide (bounds : Rectangle) : Point * Point :=
  (Point.mk (Rectangle.left bounds) (Rectangle.top bounds),
   Point.mk (Rectangle.right bounds) (Rectangle.top bounds)).

Definition bottomSide (bounds : Rectangle) : Point * Point :=
  (Point.mk (Rectangle.left bounds) (Rectangle.bottom bounds),
   Point.mk (Rectangle.right bounds) (Rectangle.bottom bounds)).

(** [lineSegmentIntersects(a, b, ...side)] *)
Definition crosses (a b : Point) (side : Point * Point) : bool :=
  lineSegmentIntersects a b (fst side) (snd side).

Definition areOnOppositeSides (flankerA flankerB flankee : TokenPF2e) : bool :=
  let centerA := Token.center flankerA in
  let centerB := Token.center flankerB in
  let bounds := Token.bounds flankee in
  (crosses centerA centerB (leftSide bounds)
   && crosses centerA centerB (rightSide bounds))
  || (crosses centerA centerB (topSide bounds)
      && crosses centerA centerB (bottomSide bounds)).

Definition isAFlankingArrangement (flankerA flankerB flankee : TokenPF2e) : bool :=
  areOnOppositeCorners flankerA flankerB flankee
  || areOnOppositeSides flankerA flankerB flankee.

(** The callback of the scan:
    [t !== this && t.canFlank(flankee) && isAFlankingArrangement(this, t, flankee)] *)
Definition isFlankingBuddy (canvas : Canvas) (this flankee t : TokenPF2e) : result bool :=
  if negb (Token.same t this) then
    able <- canFlank canvas t flankee ;;
    if able then Ok (isAFlankingArrangement this t flankee) else Ok false
  else Ok false.

Definition isFlanking (canvas : Canvas) (this flankee : TokenPF2e) : result bool :=
  able <- canFlank canvas this flankee ;;
  if negb able then Ok false
  else some (isFlankingBuddy canvas this flankee)
         (Canvas.placeables (Canvas.tokens canvas)).

End TokenPF2e.


(** ** [updateSource]

    The method writes [this.data.light] around the call of the inherited
    [updateSource]. The state is the light of the token and, as [host],
    whatever else the inherited method reads or writes. *)

Module Light.
Record t : Type := mk { dim : number; bright : number }.
End Light.

(** [canvas.sight], as far as the code reads it. *)
Record SightLayer : Type := mkSightLayer {
  hasLowLightVision : bool;
  hasDarkvision : bool
}.

(** The argument of [updateSource]; a missing member is [None]. *)
Record UpdateSourceOptions : Type := mkUpdateSourceOptions {
  defer : option bool;
  deleted : option bool;
  skipUpdateFog : option bool
}.

(** The object handed on to [super.updateSource]. *)
Record SourceUpdate : Type := mkSourceUpdate {
  update_defer : bool;
  update_deleted : bool;
  update_skipUpdateFog : bool
}.

Section UpdateSource.

Variable Host : Type.

Record TokenState : Type := mkTokenState { light : Light.t; host : Host }.

(** [this.data.light.bright = v] and [this.data.light.dim = v] *)
Definition setBright (st : TokenState) (v : number) : TokenState :=
  mkTokenState (Light.mk (Light.dim (light st)) v) (host st).

Definition setDim (st : TokenState) (v : number) : TokenState :=
  mkTokenState (Light.mk v (Light.bright (light st))) (host st).

(** [super.updateSource] *)
Variable superUpdateSource : SourceUpdate -> TokenState -> TokenState.

Definition updateSource (actor : option ActorPF2e) (sight : SightLayer)
    (options : option UpdateSourceOptions) (st : TokenState) : TokenState :=
  let given := nullish options (mkUpdateSourceOptions None None None) in
  let args :=
    mkSourceUpdate (nullish (defer given) false) (nullish (deleted given) false)
      (nullish (skipUpdateFog given) false) in
  if (match actor with
      | Some a => String.eqb (Actor.type a) "npc"
      | None => false
      end)
     || negb (hasLowLightVision sight || hasDarkvision sight)
  then superUpdateSource args st
  else
    let original := Light.mk (Light.dim (light st)) (Light.bright (light st)) in
    let st1 := setBright st (nmax (Light.dim original) (Light.bright original)) in
    let st2 := setDim st1 (int 0) in
    let st3 := superUpdateSource args st2 in
    let st4 := setBright st3 (Light.bright original) in
    setDim st4 (Light.dim original).

End UpdateSource.

(** ** [showFloatyText]

    The arguments of the scrolling text, as the method computes them before
    it waits for the drawing and hands them to the HUD. *)

Definition nmul : number -> number -> number := lift2 Qcmult.

(** [Math.abs] *)
Definition nabs (a : number) : number :=
  match a with
  | Num q => Num (match (q ?= 0)%Qc with Lt => (- q)%Qc | _ => q end)
  | NaN => NaN
  end.

(** A number as a condition: 0 and [NaN] are falsy. *)
Definition truthy (a : number) : bool :=
  match a with
  | Num q => match (q ?= 0)%Qc with Eq => false | _ => true end
  | NaN => false
  end.

(** The quotient of two numbers, with the infinities a zero divisor gives. *)
Inductive quotient : Type :=
  | QNaN
  | QPosInf
  | QNegInf
  | QNum (q : Qc).

Definition divide (a b : number) : quotient :=
  match a, b with
  | Num p, Num q =>
      match (q ?= 0)%Qc with
      | Eq =>
          match (p ?= 0)%Qc with
          | Eq => QNaN
          | Gt => QPosInf
          | Lt => QNegInf
          end
      | _ => QNum (p / q)%Qc
      end
  | _, _ => QNaN
  end.

Definition Qcmin (p q : Qc) : Qc :=
  match (p ?= q)%Qc with
  | Gt => q
  | _ => p
  end.

(** [Math.clamped(num, min, max)], which is
    [Math.min(max, Math.max(num, min))], between rational bounds. *)
Definition clamped (num : quotient) (min max : Qc) : number :=
  match num with
  | QNaN => NaN
  | QPosInf => Num max
  | QNegInf => Num (Qcmin max min)
  | QNum q => Num (Qcmin max (Qcmax q min))
  end.

(** [CONST.TEXT_ANCHOR_POINTS] *)
Inductive TEXT_ANCHOR_POINTS : Type :=
  | ANCHOR_CENTER | ANCHOR_BOTTOM | ANCHOR_TOP | ANCHOR_LEFT | ANCHOR_RIGHT.

(** A fill is a colour number or a colour name. *)
Inductive Fill : Type :=
  | FillColour (rgb : Z)
  | FillName (name : string).

Module TextStyle.
Record t : Type := mk {
  anchor : TEXT_ANCHOR_POINTS;
  direction : option number;
  jitter : number;
  fill : Fill;
  fontSize : number;
  stroke : Z;
  strokeThickness : number
}.
End TextStyle.

Module Floaty.
(** [NumericFloatyEffect] *)
Record Effect : Type := mkEffect { name : string; value : option number }.

(** [ShowFloatyEffectParams] without the number: an object with the one
    key [create], [update] or [delete]. *)
Inductive EffectParams : Type :=
  | create (details : Effect)
  | update (details : Effect)
  | delete (details : Effect).

(** [Object.entries(params)[0]] *)
Definition firstEntry (params : EffectParams) : string * Effect :=
  match params with
  | create d => ("create"%string, d)
  | update d => ("update"%string, d)
  | delete d => ("delete"%string, d)
  end.
End Floaty.

(** How the host prints numbers: [Number.prototype.signedString] and the
    conversion of a number inside a template string. *)
Class NumberFormat : Type := {
  signedString : number -> string;
  numberToString : number -> string
}.

Section ShowFloatyText.

Context {format : NumberFormat}.

(** The value of [scrollingTextArgs]; [None] is [null]. [maxHP] is
    [this.actor?.hitPoints?.max], [None] when that is not a number. *)
Definition scrollingTextArgs (maxHP : option number)
    (params : number + Floaty.EffectParams) : option (string * TextStyle.t) :=
  match params with
  | inl quantity =>
      match maxHP with
      | Some maxHP =>
          if negb (truthy quantity) then None
          else
            let percent := clamped (divide (nabs quantity) maxHP) 0 1 in
            Some (signedString quantity,
                  TextStyle.mk ANCHOR_TOP None
                    (Num (Q2Qc (1 # 4)))
                    (FillColour (if (quantity < int 0)%js then 16711680 else 65280))
                    (int 16 + nmul (int 32) percent)%js
                    0
                    (int 4))
      | None => None
      end
  | inr params =>
      let (change, details) := Floaty.firstEntry params in
      let isAdded := String.eqb change "create" in
      let sign := (if isAdded then "+ " else "- ")%string in
      let appendedNumber :=
        match Floaty.value details with
        | Some v => if truthy v then (" " ++ numberToString v)%string else ""%string
        | None => ""%string
        end in
      let content := (sign ++ Floaty.name details ++ appendedNumber)%string in
      Some (content,
            TextStyle.mk
              (if String.eqb change "create" then ANCHOR_TOP else ANCHOR_BOTTOM)
              (Some (if isAdded then int 2 else int 1))
              (Num (Q2Qc (1 # 4)))
              (FillName "white")
              (int 32)
              0
              (int 4))
  end.

End ShowFloatyText.

(** ** Notions used by the statements *)

(** The player-allegiance flag of a token, absent counting as false. *)
Definition playerAllegiance (t : TokenPF2e) : bool :=
  match Token.actor t with
  | Some a => nullish (Actor.hasPlayerOwner a) false
  | None => false
  end.

(** The token has an actor of a type that may flank. *)
Definition flankCapable (t : TokenPF2e) : bool :=
  match Token.actor t with
  | Some a => includes ["character"; "npc"]%string (Actor.type a)
  | None => false
  end.

(** The token has an actor and that actor is a creature. *)
Definition flankable (t : TokenPF2e) : bool :=
  match Token.actor t with
  | Some a => Actor.instanceofCreaturePF2e a
  | None => false
  end.

Section Notions.

Context {utils : FoundryUtils} {units : GridUnits}.

(** The actor can attack and its attack reach covers the distance. *)
Definition attackInReach (canvas : Canvas) (this flankee : TokenPF2e) : bool :=
  match Token.actor this with
  | Some a =>
      Actor.canAttack a
      && (Actor.getReach a to_attack
          >= distanceTo canvas this flankee (Some (Actor.getReach a to_attack)))%js
  | None => false
  end.

(** The verdict of [canFlank] as one boolean expression. *)
Definition canFlankVerdict (canvas : Canvas) (this flankee : TokenPF2e) : bool :=
  negb (Token.same this flankee)
  && flankCapable this
  && flankable flankee
  && xorb (playerAllegiance this) (playerAllegiance flankee)
  && attackInReach canvas this flankee.

End Notions.

(** Every field of the rectangle is a rational. *)
Definition finiteRect (r : Rectangle) : Prop :=
  exists x y w h : Qc, r = Rectangle.mk (Num x) (Num y) (Num w) (Num h).

(** The interiors of the rectangles intersect. *)
Definition rectanglesOverlap (r0 r1 : Rectangle) : bool :=
  (Rectangle.left r0 < Rectangle.right r1)%js
  && (Rectangle.left r1 < Rectangle.right r0)%js
  && (Rectangle.top r0 < Rectangle.bottom r1)%js
  && (Rectangle.top r1 < Rectangle.bottom r0)%js.

(** The rectangles share no point: one lies strictly beyond a side of the
    other. *)
Definition rectanglesDisjoint (r0 r1 : Rectangle) : bool :=
  (Rectangle.right r0 < Rectangle.left r1)%js
  || (Rectangle.right r1 < Rectangle.left r0)%js
  || (Rectangle.bottom r0 < Rectangle.top r1)%js
  || (Rectangle.bottom r1 < Rectangle.top r0)%js.

(** Half of a rational. *)
Definition half (s : Qc) : Qc := (s / Q2Qc (inject_Z 2))%Qc.

(** The conversion yields a positive distance for every gap that is not
    zero, at cell size [gridSize]. *)
Definition positiveOnGaps {units : GridUnits} (gridSize : number) : Prop :=
  forall dx dy : Qc,
    (0 <= dx)%Qc -> (0 <= dy)%Qc -> (0 < dx)%Qc \/ (0 < dy)%Qc ->
    exists q : Qc,
      euclideanGridDistance gridSize (Num dx) (Num dy) = Num q /\ (0 < q)%Qc.

(** ** A rational instance of the collaborators

    The properties below hold for every [FoundryUtils] and [GridUnits].
    To run the code on concrete scenes this module gives the collaborators
    over exact rationals: the segment test by orientation signs, the circle
    test by the sign of the quadratic's discriminant, the Euclidean length
    through an integer square root taken to three decimals. *)

Module Reference.

Definition vec : Type := (Qc * Qc)%type.

Definition coords (p : Point) : option vec :=
  match Point.x p, Point.y p with
  | Num a, Num b => Some (a, b)
  | _, _ => None
  end.

Definition isZero (q : Qc) : bool :=
  match (q ?= 0)%Qc with Eq => true | _ => false end.
Definition isPositive (q : Qc) : bool :=
  match (q ?= 0)%Qc with Gt => true | _ => false end.
Definition nonPositive (q : Qc) : bool :=
  match (q ?= 0)%Qc with Gt => false | _ => true end.
Definition nonNegative (q : Qc) : bool :=
  match (q ?= 0)%Qc with Lt => false | _ => true end.

Definition orient2dFast (a b c : vec) : Qc :=
  ((snd a - snd c) * (fst b - fst c) - (fst a - fst c) * (snd b - snd c))%Qc.

(** Segments [ab] and [cd] cross: [c] and [d] lie on different sides of
    [ab] and [a] and [b] on different sides of [cd], collinear quadruples
    being rejected. *)
Definition segmentsIntersect (a b c d : vec) : bool :=
  let xa := orient2dFast a b c in
  let xb := orient2dFast a b d in
  if isZero xa && isZero xb then false
  else nonPositive (xa * xb)
       && nonPositive (orient2dFast c d a * orient2dFast c d b).

Definition segmentTest (a b c d : Point) : bool :=
  match coords a, coords b, coords c, coords d with
  | Some a', Some b', Some c', Some d' => segmentsIntersect a' b' c' d'
  | _, _, _, _ => false
  end.

Definition dot (u v : vec) : Qc := (fst u * fst v + snd u * snd v)%Qc.
Definition minus (u v : vec) : vec := ((fst u - fst v)%Qc, (snd u - snd v)%Qc).
Definition norm2 (u : vec) : Qc := dot u u.

(** Segment [ab] meets the circle of radius [r] about [c]: not both
    endpoints are inside, and either one is, or the foot of the perpendicular
    from [c] falls on the segment at distance at most [r]. *)
Definition segmentMeetsCircle (a b c : vec) (r : Qc) : bool :=
  let fa := (norm2 (minus a c) - r * r)%Qc in
  let fb := (norm2 (minus b c) - r * r)%Qc in
  (isPositive fa || isPositive fb)
  && (nonPositive fa || nonPositive fb
      || (isPositive (norm2 (minus a b))
          && nonNegative (dot (minus c a) (minus b a))
          && nonNegative (dot (minus c b) (minus a b))
          && nonPositive (orient2dFast a b c * orient2dFast a b c
                          - r * r * norm2 (minus a b))%Qc)).

(** The foot of the perpendicular from [c] on the line [ab], which is the
    midpoint of the chord the circle cuts from it. The crossing points
    themselves are irrational in general; the list below reports this
    midpoint in their place, the source looking at nothing but whether the
    list is empty. *)
Definition chordMidpoint (a b c : vec) : Point :=
  let t := (dot (minus c a) (minus b a) / norm2 (minus b a))%Qc in
  Point.mk (Num (fst a + t * (fst b - fst a))%Qc)
           (Num (snd a + t * (snd b - snd a))%Qc).

Definition circleTest (a b c : Point) (radius : number) : LineCircleIntersection :=
  match coords a, coords b, coords c, radius with
  | Some a', Some b', Some c', Num r =>
      mkLineCircleIntersection
        (if segmentMeetsCircle a' b' c' r then [chordMidpoint a' b' c'] else [])
  | _, _, _, _ => mkLineCircleIntersection []
  end.

Definition utils : FoundryUtils :=
  {| lineCircleIntersection := circleTest;
     lineSegmentIntersects := segmentTest |}.

(** The square root to three decimals, rounded down. *)
Definition sqrtQc (q : Qc) : Qc :=
  Q2Qc (Z.sqrt (Qnum q * Zpos (Qden q) * 1000000) # (Qden q * 1000)).

(** Pixels to grid distance on a grid of 5 distance units per cell. *)
Definition toGridDistance (gridSize : number) (pixels : Qc) : number :=
  (Num (pixels * Q2Qc (inject_Z 5))%Qc / gridSize)%js.

Definition euclidean (gridSize dx dy : number) : number :=
  match dx, dy with
  | Num a, Num b => toGridDistance gridSize (sqrtQc (a * a + b * b)%Qc)
  | _, _ => NaN
  end.

Definition units : GridUnits := {| euclideanGridDistance := euclidean |}.

(** A point-to-point grid measurement for [canvas.grid.measureDistance]. *)
Definition measure (gridSize : number) (p q : Point) : number :=
  euclidean gridSize (Point.x q - Point.x p)%js (Point.y q - Point.y p)%js.

(** *** A scene *)

(** A token placed with its top-left corner at [(x, y)] and of extent
    [w] by [h] pixels, as the host engine lays it out. *)
Definition placed (oid : nat) (actor : option ActorPF2e) (x y w h : Z) : TokenPF2e :=
  Token.mk oid actor
    (Point.mk (int x + int w / int 2)%js (int y + int h / int 2)%js)
    (Point.mk (int x) (int y))
    (Rectangle.mk (int x) (int y) (int w) (int h))
    (int x) (int y) (int w) (int h).

Definition hero : ActorPF2e :=
  Actor.mk "character" true (Some true) true (fun _ => int 5).

Definition monster : ActorPF2e :=
  Actor.mk "npc" true None true (fun _ => int 5).

(** Three medium tokens in a row on 100-pixel cells: a hero on either side
    of a monster. *)
Definition heroA : TokenPF2e := placed 1 (Some hero) 0 100 100 100.
Definition foe : TokenPF2e := placed 2 (Some monster) 100 100 100 100.
Definition heroB : TokenPF2e := placed 3 (Some hero) 200 100 100 100.

(** A token without an actor. *)
Definition marker : TokenPF2e := placed 5 None 0 0 100 100.

(** A large token further to the right. *)
Definition giant : TokenPF2e := placed 4 (Some monster) 300 0 200 200.

(** Cells of 100 pixels. *)
Definition cells100 : Canvas.Dimensions := Canvas.mkDimensions (int 100).

Definition scene (dimensions : option Canvas.Dimensions) (type : GRID_TYPES) : Canvas :=
  Canvas.mk dimensions
    (Canvas.mkGrid type (measure (int 100)))
    (Canvas.mkTokenLayer [heroA; foe; heroB]).

Definition squareScene : Canvas := scene (Some cells100) SQUARE.

Definition hexScene : Canvas := scene (Some cells100) HEXODDR.

(** The canvas before a scene is ready. *)
Definition unreadyScene : Canvas := scene None SQUARE.

End Reference.

(** ** Instances for the light and the floating text *)

Module Examples.

(** An inherited [updateSource] that records the light it finds and leaves
    the light switched off. *)
Definition recordLight (args : SourceUpdate) (st : TokenState (list Light.t)) :
    TokenState (list Light.t) :=
  mkTokenState (Light.mk (int 0) (int 0)) (light st :: host st).

(** A torch: bright to 20, dim to 40. *)
Definition torch : TokenState (list Light.t) :=
  mkTokenState (Light.mk (int 40) (int 20)) [].

Definition partySight : SightLayer := mkSightLayer true false.

Definition digits (z : Z) : string :=
  DecimalString.NilZero.string_of_int (Z.to_int z).

(** Numbers printed as a numerator, with the denominator when it is not 1;
    the signed form puts a plus before what is not negative. *)
Definition printNumber (n : number) : string :=
  match n with
  | NaN => "NaN"
  | Num q =>
      match Qden (this q) with
      | xH => digits (Qnum (this q))
      | d => digits (Qnum (this q)) ++ "/" ++ digits (Zpos d)
      end
  end%string.

Definition printSigned (n : number) : string :=
  (if (n < int 0)%js then printNumber n else "+" ++ printNumber n)%string.

Definition format : NumberFormat :=
  {| signedString := printSigned; numberToString := printNumber |}.

Definition frightened (value : option number) : Floaty.Effect :=
  Floaty.mkEffect "Frightened" value.

(** The square scene with the giant placed as well, and the same scene with
    its tokens listed in another order, one of them twice. *)
Definition crowdedScene : Canvas :=
  Canvas.mk (Some Reference.cells100)
    (Canvas.mkGrid SQUARE (Reference.measure (int 100)))
    (Canvas.mkTokenLayer
       [Reference.giant; Reference.heroA; Reference.foe; Reference.heroB]).

Definition shuffledScene : Canvas :=
  Canvas.mk (Some Reference.cells100)
    (Canvas.mkGrid SQUARE (Reference.measure (int 100)))
    (Canvas.mkTokenLayer
       [Reference.heroB; Reference.foe; Reference.heroA; Reference.heroB]).

(** The square scene without the flanker and the flankee. *)
Definition buddyScene : Canvas :=
  Canvas.mk (Some Reference.cells100)
    (Canvas.mkGrid SQUARE (Reference.measure (int 100)))
    (Canvas.mkTokenLayer [Reference.heroB]).

End Examples.

(** ** The absent collaborators as the spec words them *)

(** The distance between two intervals given by their ends: between the
    nearest ends, and 0 when the intervals share a point. *)
Definition intervalDistance (lo0 hi0 lo1 hi1 : Qc) : Qc :=
  match (hi0 ?= lo1)%Qc with
  | Lt => (lo1 - hi0)%Qc
  | _ =>
      match (hi1 ?= lo0)%Qc with
      | Lt => (lo0 - hi1)%Qc
      | _ => 0%Qc
      end
  end.

(** One and a thousandth. *)
Definition tolerance : Qc := Q2Qc (1001 # 1000).

(** Modelled from the spec: the conversion inside
    [MeasuredTemplatePF2e.measureDistanceRect], whose file is not among the
    sources, in the spec's words "the Euclidean distance between the nearest
    corner/edge pair, converted to grid-distance units via the context's
    cell size". The length of the gap [(dx, dy)] is the square root of
    [dx * dx + dy * dy], taken by [Reference.sqrtQc] since the root of a
    rational is not rational in general; the length in pixels is divided by
    the cell size and multiplied by [gridDistance], the distance one cell
    stands for. *)
Definition euclideanLength (gridDistance : Qc) (gridSize dx dy : number) : number :=
  match dx, dy with
  | Num a, Num b =>
      (Num (Reference.sqrtQc (a * a + b * b) * gridDistance)%Qc / gridSize)%js
  | _, _ => NaN
  end.

Definition euclideanUnits (gridDistance : Qc) : GridUnits :=
  {| euclideanGridDistance := euclideanLength gridDistance |}.

(** Modelled from the spec: [foundry.utils.lineCircleIntersection] and
    [foundry.utils.lineSegmentIntersects] belong to the host engine and are
    not among the sources. The spec words the first test as "the line
    segment between A's center and B's center intersects flankee's bounding
    circle at more than zero intersection points" and the second as the
    segment crossing an edge, "the full segment between the rectangle's
    corresponding corners". Over rational coordinates these are
    [Reference.circleTest] and [Reference.segmentTest]. *)
Definition geometricUtils : FoundryUtils :=
  {| lineCircleIntersection := Reference.circleTest;
     lineSegmentIntersects := Reference.segmentTest |}.

(** A host whose tests are those of [host] with the two ends of the first
    segment exchanged. *)
Definition swapEndpoints (host : FoundryUtils) : FoundryUtils :=
  {| lineCircleIntersection := fun a b c r => @lineCircleIntersection host b a c r;
     lineSegmentIntersects := fun a b c d => @lineSegmentIntersects host b a c d |}.

(** ** Properties *)

Section Properties.

Context {utils : FoundryUtils} {units : GridUnits}.

Lemma same_refl (t : TokenPF2e) : Token.same t t = true.
Proof. unfold Token.same. apply Nat.eqb_refl. Qed.

Lemma same_sym (a b : TokenPF2e) : Token.same a b = Token.same b a.
Proof. unfold Token.same. apply Nat.eqb_sym. Qed.

Lemma same_false_iff (a b : TokenPF2e) :
  Token.same a b = false <-> Token.oid a <> Token.oid b.
Proof. unfold Token.same. apply Nat.eqb_neq. Qed.

(** [canFlank] never throws, and its value is [canFlankVerdict]. *)
Lemma canFlank_verdict (canvas : Canvas) (this flankee : TokenPF2e) :
  canFlank canvas this flankee = Ok (canFlankVerdict canvas this flankee).
Proof.
  unfold canFlank, canFlankVerdict, flankCapable, flankable, attackInReach,
    playerAllegiance, playerOwned.
  destruct (Token.same this flankee); [reflexivity|].
  destruct (Token.actor this) as [a|] eqn:Ha; [|reflexivity].
  destruct (includes _ (Actor.type a)); [|reflexivity].
  destruct (Token.actor flankee) as [b|] eqn:Hb; [|reflexivity].
  destruct (Actor.instanceofCreaturePF2e b); [|reflexivity].
  cbn. rewrite Ha, Hb. cbn.
  destruct (nullish (Actor.hasPlayerOwner a) false),
           (nullish (Actor.hasPlayerOwner b) false); reflexivity.
Qed.

Lemma some_existsb {A : Type} (f : A -> result bool) (g : A -> bool) (l : list A) :
  (forall a, In a l -> f a = Ok (g a)) ->
  some f l = Ok (existsb g l).
Proof.
  induction l as [|a l IH]; intros Hf; [reflexivity|].
  cbn. rewrite (Hf a (or_introl eq_refl)). cbn.
  destruct (g a); [reflexivity|].
  apply IH. intros b Hb. apply Hf. now right.
Qed.

Lemma isFlankingBuddy_verdict (canvas : Canvas) (this flankee t : TokenPF2e) :
  isFlankingBuddy canvas this flankee t =
  Ok (negb (Token.same t this)
      && canFlankVerdict canvas t flankee
      && isAFlankingArrangement this t flankee).
Proof.
  unfold isFlankingBuddy. rewrite canFlank_verdict.
  destruct (Token.same t this); [reflexivity|]. cbn.
  destruct (canFlankVerdict canvas t flankee); reflexivity.
Qed.

Lemma isFlanking_verdict (canvas : Canvas) (this flankee : TokenPF2e) :
  isFlanking canvas this flankee =
  Ok (canFlankVerdict canvas this flankee
      && existsb (fun t => negb (Token.same t this)
                           && canFlankVerdict canvas t flankee
                           && isAFlankingArrangement this t flankee)
           (Canvas.placeables (Canvas.tokens canvas))).
Proof.
  unfold isFlanking. rewrite canFlank_verdict. cbn.
  destruct (canFlankVerdict canvas this flankee); [|reflexivity]. cbn.
  apply some_existsb. intros t _. apply isFlankingBuddy_verdict.
Qed.

(** *** canFlank *)

(** C7. A token cannot flank itself, and in the scan of [isFlanking] the
    flankee is never accepted as the flanking buddy. *)
Theorem canFlank_self (canvas : Canvas) (A : TokenPF2e) :
  canFlank canvas A A = Ok false
  /\ forall this : TokenPF2e, isFlankingBuddy canvas this A A = Ok false.
Proof.
  assert (Hself : canFlankVerdict canvas A A = false).
  { unfold canFlankVerdict. now rewrite same_refl. }
  split.
  - now rewrite canFlank_verdict, Hself.
  - intros this. rewrite isFlankingBuddy_verdict, Hself.
    now rewrite andb_false_r.
Qed.

(** C4. Two tokens whose player-allegiance flags agree (both true, or both
    false or absent) cannot flank each other, whatever their reach, their
    actors' types or their positions. *)
Theorem canFlank_allied (canvas : Canvas) (A B : TokenPF2e) :
  playerAllegiance A = playerAllegiance B ->
  canFlank canvas A B = Ok false.
Proof.
  intros Hflag. rewrite canFlank_verdict. f_equal.
  unfold canFlankVerdict. rewrite Hflag, xorb_nilpotent.
  now rewrite andb_false_r.
Qed.

(** C9. Two tokens that can both flank the same flankee carry the same
    player-allegiance flag; in particular the buddy through which
    [isFlanking] succeeds carries the flag of the flanker. *)
Theorem flankers_share_allegiance (canvas : Canvas) (A B F : TokenPF2e) :
  (canFlank canvas A F = Ok true ->
   canFlank canvas B F = Ok true ->
   playerAllegiance A = playerAllegiance B)
  /\ (isFlanking canvas A F = Ok true ->
      exists buddy : TokenPF2e,
        In buddy (Canvas.placeables (Canvas.tokens canvas))
        /\ isFlankingBuddy canvas A F buddy = Ok true
        /\ playerAllegiance A = playerAllegiance buddy).
Proof.
  assert (Hflag : forall X Y : TokenPF2e,
            canFlankVerdict canvas X F = true ->
            canFlankVerdict canvas Y F = true ->
            playerAllegiance X = playerAllegiance Y).
  { intros X Y HX HY. unfold canFlankVerdict in HX, HY.
    repeat (apply andb_prop in HX; destruct HX as [HX ?]).
    repeat (apply andb_prop in HY; destruct HY as [HY ?]).
    destruct (playerAllegiance X), (playerAllegiance Y), (playerAllegiance F);
      simpl in *; congruence. }
  split.
  - rewrite !canFlank_verdict. intros HA HB.
    apply Hflag; congruence.
  - rewrite isFlanking_verdict. intros H.
    assert (H' : canFlankVerdict canvas A F
                 && existsb (fun t => negb (Token.same t A)
                                      && canFlankVerdict canvas t F
                                      && isAFlankingArrangement A t F)
                      (Canvas.placeables (Canvas.tokens canvas)) = true)
      by congruence.
    apply andb_prop in H'. destruct H' as [HA Hex].
    apply existsb_exists in Hex. destruct Hex as [t [Hin Ht]].
    exists t. split; [exact Hin|]. split.
    + rewrite isFlankingBuddy_verdict. now rewrite Ht.
    + apply andb_prop in Ht. destruct Ht as [Ht _].
      apply andb_prop in Ht. destruct Ht as [_ Ht].
      now apply Hflag.
Qed.

(** C10. [canFlank] returns a boolean on every input: it answers false when
    the flanker has no actor and when the flankee's actor is missing or is
    not a creature, and the reads of [actor!] in the allegiance check and of
    [this.actor] in the reach computation never meet a null actor. *)
Theorem canFlank_never_throws (canvas : Canvas) (A F : TokenPF2e) :
  (exists verdict : bool, canFlank canvas A F = Ok verdict)
  /\ (Token.actor A = None -> canFlank canvas A F = Ok false)
  /\ (Token.actor F = None -> canFlank canvas A F = Ok false)
  /\ (forall a : ActorPF2e,
        Token.actor F = Some a -> Actor.instanceofCreaturePF2e a = false ->
        canFlank canvas A F = Ok false).
Proof.
  rewrite canFlank_verdict. unfold canFlankVerdict, flankCapable, flankable.
  split; [eauto|]. split; [|split].
  - intros ->. now rewrite andb_false_r.
  - intros ->. now rewrite andb_false_r.
  - intros a -> ->. now rewrite andb_false_r.
Qed.

(** *** distanceTo *)

Lemma nge_NaN (r : number) : (r >= NaN)%js = false.
Proof. now destruct r. Qed.

(** C3. While the canvas has no dimensions [distanceTo] is [NaN], and every
    [canFlank] is false: the comparison of the reach with [NaN] fails. *)
Theorem canFlank_unready (canvas : Canvas) (A B : TokenPF2e) (reach : option number) :
  Canvas.dimensions canvas = None ->
  distanceTo canvas A B reach = NaN
  /\ canFlank canvas A B = Ok false.
Proof.
  intros Hdim.
  assert (Hnan : forall r, distanceTo canvas A B r = NaN).
  { intros r. unfold distanceTo. now rewrite Hdim. }
  split; [apply Hnan|].
  rewrite canFlank_verdict. f_equal.
  unfold canFlankVerdict, attackInReach.
  destruct (Token.actor A) as [a|].
  - now rewrite Hnan, nge_NaN, !andb_false_r.
  - now rewrite andb_false_r.
Qed.

Lemma not_SQUARE (type : GRID_TYPES) :
  type <> SQUARE -> negb (GRID_TYPES_eqb type SQUARE) = true.
Proof. destruct type; simpl; congruence. Qed.

(** C2, as the code has it. On a grid that is not square, [distanceTo] is
    the grid's point-to-point measurement between the [position] points of
    the two tokens, and depends on nothing else of them: two tokens at the
    same positions are as far apart, whatever their extents. *)
Theorem distanceTo_non_square (canvas : Canvas) (dims : Canvas.Dimensions)
    (A B : TokenPF2e) (reach : option number) :
  Canvas.dimensions canvas = Some dims ->
  Canvas.type (Canvas.grid canvas) <> SQUARE ->
  distanceTo canvas A B reach
  = Canvas.measureDistance (Canvas.grid canvas) (Token.position A) (Token.position B)
  /\ forall (A' B' : TokenPF2e) (reach' : option number),
       Token.position A' = Token.position A ->
       Token.position B' = Token.position B ->
       distanceTo canvas A' B' reach' = distanceTo canvas A B reach.
Proof.
  intros Hdim Htype.
  assert (H : forall X Y r,
            distanceTo canvas X Y r
            = Canvas.measureDistance (Canvas.grid canvas)
                (Token.position X) (Token.position Y)).
  { intros X Y r. unfold distanceTo. now rewrite Hdim, (not_SQUARE Htype). }
  split; [apply H|].
  intros A' B' reach' HA HB. now rewrite !H, HA, HB.
Qed.

(** *** isFlanking *)

(** C1. [isFlanking] returns a boolean, and returns true exactly when the
    flanker can flank the flankee and some placed token other than the
    flanker can flank it too and stands in a flanking arrangement with the
    flanker: the segment between the two centers meets the circle of radius
    1 about the flankee's center, or crosses the left and the right side of
    the flankee's bounds, or crosses their top and bottom side. It returns
    false when no token is placed or every placed token is the flanker. *)
Theorem isFlanking_iff_buddy (canvas : Canvas) (A F : TokenPF2e) :
  let P := Canvas.placeables (Canvas.tokens canvas) in
  let box := Token.bounds F in
  let left := Rectangle.left box in
  let right := Rectangle.right box in
  let top := Rectangle.top box in
  let bottom := Rectangle.bottom box in
  (exists verdict : bool, isFlanking canvas A F = Ok verdict)
  /\ (isFlanking canvas A F = Ok true <->
      canFlank canvas A F = Ok true
      /\ exists B : TokenPF2e,
           In B P
           /\ Token.oid B <> Token.oid A
           /\ canFlank canvas B F = Ok true
           /\ let segment := lineSegmentIntersects (Token.center A) (Token.center B) in
              (0 < List.length
                     (intersections
                        (lineCircleIntersection (Token.center A) (Token.center B)
                           (Token.center F) (int 1))))%nat
              \/ (segment (Point.mk left top) (Point.mk left bottom) = true
                  /\ segment (Point.mk right top) (Point.mk right bottom) = true)
              \/ (segment (Point.mk left top) (Point.mk right top) = true
                  /\ segment (Point.mk left bottom) (Point.mk right bottom) = true))
  /\ (P = [] -> isFlanking canvas A F = Ok false)
  /\ ((forall B : TokenPF2e, In B P -> Token.oid B = Token.oid A) ->
      isFlanking canvas A F = Ok false).
Proof.
  intros P box left right top bottom.
  rewrite isFlanking_verdict. fold P.
  set (buddy := fun t => negb (Token.same t A)
                         && canFlankVerdict canvas t F
                         && isAFlankingArrangement A t F).
  assert (Hbuddy : forall B,
            buddy B = true <->
            Token.oid B <> Token.oid A
            /\ canFlank canvas B F = Ok true
            /\ ((0 < List.length
                       (intersections
                          (lineCircleIntersection (Token.center A) (Token.center B)
                             (Token.center F) (int 1))))%nat
                \/ (lineSegmentIntersects (Token.center A) (Token.center B)
                      (Point.mk left top) (Point.mk left bottom) = true
                    /\ lineSegmentIntersects (Token.center A) (Token.center B)
                         (Point.mk right top) (Point.mk right bottom) = true)
                \/ (lineSegmentIntersects (Token.center A) (Token.center B)
                      (Point.mk left top) (Point.mk right top) = true
                    /\ lineSegmentIntersects (Token.center A) (Token.center B)
                         (Point.mk left bottom) (Point.mk right bottom) = true))).
  { intros B. unfold buddy. rewrite canFlank_verdict.
    rewrite !andb_true_iff, negb_true_iff, same_false_iff.
    unfold isAFlankingArrangement, areOnOppositeCorners, areOnOppositeSides,
      crosses, leftSide, rightSide, topSide, bottomSide. cbn [fst snd].
    fold box. fold left. fold right. fold top. fold bottom.
    rewrite !orb_true_iff, !andb_true_iff, Nat.ltb_lt.
    split.
    - intros [[Hne Hcan] Harr]. repeat split; [exact Hne|now f_equal|].
      tauto.
    - intros [Hne [Hcan Harr]]. repeat split; [exact Hne|congruence|].
      tauto. }
  split; [eauto|]. split; [|split].
  - rewrite canFlank_verdict. split.
    + intros H.
      assert (H' : canFlankVerdict canvas A F && existsb buddy P = true)
        by congruence.
      apply andb_prop in H'. destruct H' as [HA Hex].
      split; [now f_equal|].
      apply existsb_exists in Hex. destruct Hex as [B [Hin HB]].
      exists B. split; [exact Hin|]. now apply Hbuddy.
    + intros [HA [B [Hin HB]]]. f_equal.
      apply andb_true_intro. split; [congruence|].
      apply existsb_exists. exists B. split; [exact Hin|]. now apply Hbuddy.
  - intros ->. now rewrite andb_false_r.
  - intros Honly. f_equal.
    assert (Hnone : existsb buddy P = false).
    { apply not_true_is_false. intros Hex.
      apply existsb_exists in Hex. destruct Hex as [B [Hin HB]].
      apply Hbuddy in HB. destruct HB as [Hne _].
      apply Hne. now apply Honly. }
    now rewrite Hnone, andb_false_r.
Qed.

End Properties.

(** *** The square grid *)

Section SquareGrid.

Context {utils : FoundryUtils} {units : GridUnits}.

Lemma nlt_Num (p q : Qc) : (Num p < Num q)%js = true <-> (p < q)%Qc.
Proof.
  unfold nlt, ncompare. rewrite Qclt_alt.
  destruct (p ?= q)%Qc; split; congruence.
Qed.

Lemma nle_Num (p q : Qc) : (Num p <= Num q)%js = true <-> (p <= q)%Qc.
Proof.
  unfold nle, ncompare. rewrite Qcle_alt.
  destruct (p ?= q)%Qc; split; congruence.
Qed.

Lemma nlt_nle (a b : number) : (a < b)%js = true -> (a <= b)%js = true.
Proof.
  destruct a as [|p], b as [|q]; try discriminate.
  rewrite nlt_Num, nle_Num. apply Qclt_le_weak.
Qed.

Lemma nlt_not_nle (a b : number) : (a < b)%js = true -> (b <= a)%js = false.
Proof.
  destruct a as [|p], b as [|q]; try discriminate.
  rewrite nlt_Num. intros Hlt. apply not_true_is_false.
  rewrite nle_Num. now apply Qclt_not_le.
Qed.

Lemma Qcmax_comm (p q : Qc) : Qcmax p q = Qcmax q p.
Proof.
  unfold Qcmax.
  destruct (p ?= q)%Qc eqn:Hpq, (q ?= p)%Qc eqn:Hqp; try reflexivity.
  - now apply Qceq_alt.
  - now apply Qceq_alt.
  - apply Qclt_alt in Hpq. apply Qclt_alt in Hqp.
    exfalso. apply (Qclt_not_le _ _ Hpq). now apply Qclt_le_weak.
  - symmetry. now apply Qceq_alt.
  - apply Qcgt_alt in Hpq. apply Qcgt_alt in Hqp.
    exfalso. apply (Qclt_not_le _ _ Hpq). now apply Qclt_le_weak.
Qed.

Lemma Qcmax_le_l (p q : Qc) : (p <= Qcmax p q)%Qc.
Proof.
  unfold Qcmax. destruct (p ?= q)%Qc eqn:Hpq; try apply Qcle_refl.
  apply Qclt_le_weak. now apply Qclt_alt.
Qed.

Lemma Qcmax_le_r (p q : Qc) : (q <= Qcmax p q)%Qc.
Proof. rewrite Qcmax_comm. apply Qcmax_le_l. Qed.

Lemma nmax_comm (a b : number) : nmax a b = nmax b a.
Proof.
  destruct a as [|p], b as [|q]; try reflexivity.
  unfold nmax, lift2. now rewrite Qcmax_comm.
Qed.

Lemma gap_sym (lo0 hi0 lo1 hi1 : number) :
  gap lo0 hi0 lo1 hi1 = gap lo1 hi1 lo0 hi0.
Proof. unfold gap. now rewrite (nmax_comm (lo1 - hi0)%js). Qed.

Lemma gap_Num (lo0 hi0 lo1 hi1 : Qc) :
  exists d : Qc,
    gap (Num lo0) (Num hi0) (Num lo1) (Num hi1) = Num d
    /\ (0 <= d)%Qc
    /\ ((hi0 < lo1)%Qc \/ (hi1 < lo0)%Qc -> (0 < d)%Qc).
Proof.
  exists (Qcmax (Qcmax (lo1 - hi0) (lo0 - hi1)) 0)%Qc.
  split; [reflexivity|]. split; [apply Qcmax_le_r|].
  intros Hlt.
  apply Qclt_le_trans with (y := Qcmax (lo1 - hi0) (lo0 - hi1));
    [|apply Qcmax_le_l].
  destruct Hlt as [Hlt|Hlt].
  - apply Qclt_le_trans with (y := (lo1 - hi0)%Qc); [|apply Qcmax_le_l].
    exact (proj1 (Qclt_minus_iff hi0 lo1) Hlt).
  - apply Qclt_le_trans with (y := (lo0 - hi1)%Qc); [|apply Qcmax_le_r].
    exact (proj1 (Qclt_minus_iff hi1 lo0) Hlt).
Qed.

Lemma rectanglesMeet_sym (r0 r1 : Rectangle) :
  rectanglesMeet r0 r1 = rectanglesMeet r1 r0.
Proof.
  unfold rectanglesMeet.
  destruct (Rectangle.left r0 <= Rectangle.right r1)%js,
           (Rectangle.left r1 <= Rectangle.right r0)%js,
           (Rectangle.top r0 <= Rectangle.bottom r1)%js,
           (Rectangle.top r1 <= Rectangle.bottom r0)%js; reflexivity.
Qed.

Lemma measureDistanceRect_sym (gridSize : number) (r0 r1 : Rectangle)
    (reach : option number) :
  measureDistanceRect gridSize r0 r1 reach = measureDistanceRect gridSize r1 r0 reach.
Proof.
  unfold measureDistanceRect, gapX, gapY.
  rewrite (rectanglesMeet_sym r0 r1).
  now rewrite (gap_sym (Rectangle.left r0)), (gap_sym (Rectangle.top r0)).
Qed.

Lemma rectanglesOverlap_meet (r0 r1 : Rectangle) :
  rectanglesOverlap r0 r1 = true -> rectanglesMeet r0 r1 = true.
Proof.
  unfold rectanglesOverlap, rectanglesMeet.
  rewrite !andb_true_iff. intros [[[H1 H2] H3] H4].
  repeat split; now apply nlt_nle.
Qed.

Lemma rectanglesDisjoint_not_meet (r0 r1 : Rectangle) :
  rectanglesDisjoint r0 r1 = true -> rectanglesMeet r0 r1 = false.
Proof.
  unfold rectanglesDisjoint, rectanglesMeet.
  rewrite !orb_true_iff. intros [[[H|H]|H]|H];
    apply nlt_not_nle in H; rewrite H;
    now rewrite ?andb_false_r, ?andb_false_l.
Qed.

Lemma measureDistanceRect_disjoint (gridSize : number) (r0 r1 : Rectangle)
    (reach : option number) :
  positiveOnGaps gridSize ->
  finiteRect r0 -> finiteRect r1 ->
  rectanglesDisjoint r0 r1 = true ->
  exists q : Qc, measureDistanceRect gridSize r0 r1 reach = Num q /\ (0 < q)%Qc.
Proof.
  intros Hpos [x0 [y0 [w0 [h0 ->]]]] [x1 [y1 [w1 [h1 ->]]]] Hdis.
  unfold measureDistanceRect.
  rewrite (rectanglesDisjoint_not_meet _ _ Hdis).
  unfold gapX, gapY, Rectangle.left, Rectangle.right, Rectangle.top,
    Rectangle.bottom. cbn [Rectangle.x Rectangle.y Rectangle.width Rectangle.height].
  change (Num x0 + Num w0)%js with (Num (x0 + w0)).
  change (Num x1 + Num w1)%js with (Num (x1 + w1)).
  change (Num y0 + Num h0)%js with (Num (y0 + h0)).
  change (Num y1 + Num h1)%js with (Num (y1 + h1)).
  destruct (gap_Num x0 (x0 + w0) x1 (x1 + w1)) as [dx [-> [Hdx Hdx']]].
  destruct (gap_Num y0 (y0 + h0) y1 (y1 + h1)) as [dy [-> [Hdy Hdy']]].
  apply Hpos; [exact Hdx|exact Hdy|].
  unfold rectanglesDisjoint, Rectangle.left, Rectangle.right, Rectangle.top,
    Rectangle.bottom in Hdis.
  cbn [Rectangle.x Rectangle.y Rectangle.width Rectangle.height] in Hdis.
  change (Num x0 + Num w0)%js with (Num (x0 + w0)) in Hdis.
  change (Num x1 + Num w1)%js with (Num (x1 + w1)) in Hdis.
  change (Num y0 + Num h0)%js with (Num (y0 + h0)) in Hdis.
  change (Num y1 + Num h1)%js with (Num (y1 + h1)) in Hdis.
  rewrite !orb_true_iff, !nlt_Num in Hdis.
  destruct Hdis as [[[H|H]|H]|H]; [left|left|right|right]; auto.
Qed.

Lemma ndiv_two (s : Qc) : (Num s / int 2)%js = Num (half s).
Proof. reflexivity. Qed.

Lemma half_twice (s : Qc) : (half s + half s = s)%Qc.
Proof.
  unfold half.
  replace (Q2Qc (inject_Z 2)) with (1 + 1)%Qc by now apply Qc_is_canon.
  field. intros H. apply (f_equal this) in H. discriminate H.
Qed.

(** The rectangle of a token is its footprint moved in by half a cell on
    each of its four sides. *)
Lemma tokenRect_inset (t : TokenPF2e) (x y w h s : Qc) :
  Token.x t = Num x -> Token.y t = Num y ->
  Token.w t = Num w -> Token.h t = Num h ->
  Rectangle.left (tokenRect (Num s) t) = Num (x + half s)
  /\ Rectangle.top (tokenRect (Num s) t) = Num (y + half s)
  /\ Rectangle.right (tokenRect (Num s) t) = Num (x + w - half s)
  /\ Rectangle.bottom (tokenRect (Num s) t) = Num (y + h - half s).
Proof.
  intros Hx Hy Hw Hh.
  unfold tokenRect, Rectangle.left, Rectangle.top, Rectangle.right,
    Rectangle.bottom.
  cbn [Rectangle.x Rectangle.y Rectangle.width Rectangle.height].
  rewrite Hx, Hy, Hw, Hh, ndiv_two.
  repeat split; try reflexivity.
  - change (Num (x + half s + (w - s)) = Num (x + w - half s)). f_equal.
    rewrite <- (half_twice s) at 2. ring.
  - change (Num (y + half s + (h - s)) = Num (y + h - half s)). f_equal.
    rewrite <- (half_twice s) at 2. ring.
Qed.

(** The gap between two intervals is the distance between their nearest
    ends, and zero when they share a point. *)
Lemma gap_nearest (lo0 hi0 lo1 hi1 : Qc) :
  (lo0 <= hi0)%Qc -> (lo1 <= hi1)%Qc ->
  ((hi0 < lo1)%Qc -> gap (Num lo0) (Num hi0) (Num lo1) (Num hi1) = Num (lo1 - hi0))
  /\ ((hi1 < lo0)%Qc -> gap (Num lo0) (Num hi0) (Num lo1) (Num hi1) = Num (lo0 - hi1))
  /\ ((lo1 <= hi0)%Qc -> (lo0 <= hi1)%Qc ->
      gap (Num lo0) (Num hi0) (Num lo1) (Num hi1) = int 0).
Proof.
  intros H0 H1.
  assert (Hmax_l : forall p q : Qc, (q <= p)%Qc -> Qcmax p q = p).
  { intros p q Hle. unfold Qcmax. destruct (p ?= q)%Qc eqn:Hc; try reflexivity.
    apply Qclt_alt in Hc. now apply Qclt_not_le in Hc. }
  assert (Hmax_r : forall p q : Qc, (p <= q)%Qc -> Qcmax p q = q).
  { intros p q Hle. rewrite Qcmax_comm. now apply Hmax_l. }
  assert (Hneg : forall a b : Qc, (a <= b)%Qc -> (a - b <= 0)%Qc).
  { intros a b Hle. apply Qcle_minus_iff.
    replace (0 + - (a - b))%Qc with (b + - a)%Qc by ring.
    exact (proj1 (Qcle_minus_iff a b) Hle). }
  assert (Hpos : forall a b : Qc, (a < b)%Qc -> (0 < b - a)%Qc).
  { intros a b Hlt. exact (proj1 (Qclt_minus_iff a b) Hlt). }
  unfold gap. change (int 0) with (Num 0%Qc).
  change (Num lo1 - Num hi0)%js with (Num (lo1 - hi0)).
  change (Num lo0 - Num hi1)%js with (Num (lo0 - hi1)).
  unfold nmax, lift2.
  split; [|split].
  - intros Hlt. f_equal.
    assert (Hother : (lo0 - hi1 <= 0)%Qc).
    { apply Hneg. apply Qcle_trans with (y := hi0); [exact H0|].
      apply Qcle_trans with (y := lo1); [now apply Qclt_le_weak|exact H1]. }
    rewrite (Hmax_l (lo1 - hi0)%Qc (lo0 - hi1)%Qc).
    + apply Hmax_l. apply Qclt_le_weak. now apply Hpos.
    + apply Qcle_trans with (y := 0%Qc); [exact Hother|].
      apply Qclt_le_weak. now apply Hpos.
  - intros Hlt. f_equal.
    assert (Hother : (lo1 - hi0 <= 0)%Qc).
    { apply Hneg. apply Qcle_trans with (y := hi1); [exact H1|].
      apply Qcle_trans with (y := lo0); [now apply Qclt_le_weak|exact H0]. }
    rewrite (Hmax_r (lo1 - hi0)%Qc (lo0 - hi1)%Qc).
    + apply Hmax_l. apply Qclt_le_weak. now apply Hpos.
    + apply Qcle_trans with (y := 0%Qc); [exact Hother|].
      apply Qclt_le_weak. now apply Hpos.
  - intros Ha Hb. f_equal. apply Hmax_r.
    destruct (Qclt_le_dec (lo1 - hi0) (lo0 - hi1)) as [Hc|Hc].
    + rewrite Hmax_r by now apply Qclt_le_weak. now apply Hneg.
    + rewrite Hmax_l by exact Hc. now apply Hneg.
Qed.

End SquareGrid.

(** ** The rational instance *)

Module ReferenceFacts.

Import Reference.

Local Open Scope Qc_scope.

Lemma orient2dFast_swap (a b c : vec) :
  orient2dFast b a c = - orient2dFast a b c.
Proof. unfold orient2dFast. ring. Qed.

Lemma Qcopp_zero_iff (x : Qc) : - x = 0 <-> x = 0.
Proof.
  split; intros H.
  - rewrite <- (Qcopp_involutive x), H. ring.
  - rewrite H. ring.
Qed.

Lemma isZero_true (x : Qc) : isZero x = true <-> x = 0.
Proof.
  unfold isZero. rewrite Qceq_alt.
  destruct (x ?= 0); split; congruence.
Qed.

Lemma isZero_opp (x : Qc) : isZero (- x) = isZero x.
Proof.
  apply eq_true_iff_eq. rewrite !isZero_true. apply Qcopp_zero_iff.
Qed.

Lemma segmentsIntersect_sym (a b c d : vec) :
  segmentsIntersect a b c d = segmentsIntersect b a c d.
Proof.
  unfold segmentsIntersect.
  rewrite (orient2dFast_swap a b c), (orient2dFast_swap a b d), !isZero_opp.
  replace (- orient2dFast a b c * - orient2dFast a b d)
    with (orient2dFast a b c * orient2dFast a b d) by ring.
  now rewrite (Qcmult_comm (orient2dFast c d b)).
Qed.

Lemma segmentTest_sym (a b c d : Point) :
  segmentTest a b c d = segmentTest b a c d.
Proof.
  unfold segmentTest.
  destruct (coords a), (coords b), (coords c), (coords d); try reflexivity.
  apply segmentsIntersect_sym.
Qed.

Lemma norm2_minus_sym (a b : vec) : norm2 (minus b a) = norm2 (minus a b).
Proof. unfold norm2, dot, minus. cbn [fst snd]. ring. Qed.

Lemma segmentMeetsCircle_sym (a b c : vec) (r : Qc) :
  segmentMeetsCircle a b c r = segmentMeetsCircle b a c r.
Proof.
  unfold segmentMeetsCircle. cbv zeta.
  rewrite (norm2_minus_sym a b), (orient2dFast_swap a b c).
  replace (- orient2dFast a b c * - orient2dFast a b c)
    with (orient2dFast a b c * orient2dFast a b c) by ring.
  destruct (isPositive (norm2 (minus a c) - r * r)),
           (isPositive (norm2 (minus b c) - r * r)),
           (nonPositive (norm2 (minus a c) - r * r)),
           (nonPositive (norm2 (minus b c) - r * r)),
           (isPositive (norm2 (minus a b))),
           (nonNegative (dot (minus c a) (minus b a))),
           (nonNegative (dot (minus c b) (minus a b))); reflexivity.
Qed.

Lemma circleTest_sym (a b c : Point) (r : number) :
  Nat.ltb 0 (List.length (intersections (circleTest a b c r)))
  = Nat.ltb 0 (List.length (intersections (circleTest b a c r))).
Proof.
  unfold circleTest.
  destruct (coords a) as [a'|], (coords b) as [b'|], (coords c) as [c'|],
    r as [|q]; try reflexivity.
  cbn [intersections]. rewrite (segmentMeetsCircle_sym a' b' c' q).
  now destruct (segmentMeetsCircle b' a' c' q).
Qed.

Lemma Qcmult_pos (a b : Qc) : 0 < a -> 0 < b -> 0 < a * b.
Proof.
  intros Ha Hb. rewrite <- (Qcmult_0_l b).
  now apply Qcmult_lt_compat_r.
Qed.

Lemma Qcsquare_nonneg (a : Qc) : 0 <= a -> 0 <= a * a.
Proof.
  intros Ha. rewrite <- (Qcmult_0_l a) at 1.
  now apply Qcmult_le_compat_r.
Qed.

Lemma sum_of_squares_pos (a b : Qc) :
  0 <= a -> 0 <= b -> 0 < a \/ 0 < b -> 0 < a * a + b * b.
Proof.
  intros Ha Hb [H|H].
  - apply Qclt_le_trans with (y := a * a + 0).
    + rewrite Qcplus_0_r. now apply Qcmult_pos.
    + apply Qcplus_le_compat; [apply Qcle_refl|now apply Qcsquare_nonneg].
  - apply Qclt_le_trans with (y := 0 + b * b).
    + rewrite Qcplus_0_l. now apply Qcmult_pos.
    + apply Qcplus_le_compat; [now apply Qcsquare_nonneg|apply Qcle_refl].
Qed.

Lemma sqrtQc_pos (q : Qc) : 0 < q -> 0 < sqrtQc q.
Proof.
  unfold Qclt, sqrtQc. cbn [this Q2Qc]. rewrite !Qred_correct.
  unfold Qlt. cbn [Qnum Qden inject_Z]. intros Hq.
  rewrite Z.mul_0_l, Z.mul_1_r in *.
  apply Z.sqrt_pos. nia.
Qed.

End ReferenceFacts.

(** ** The square grid and the arrangement with the collaborators of the spec *)

Section SpecCollaborators.

Local Open Scope Qc_scope.

Ltac qc_to_q :=
  unfold Qcle, Qclt, Qcdiv, Qcminus, Qcplus, Qcmult, Qcopp, Q2Qc in *;
  cbn [this] in *; rewrite ?Qred_correct in *.

(** [Reference.sqrtQc] is the square root from below, to within a
    thousandth of its value. *)
Lemma sqrtQc_spec (q : Qc) :
  0 <= q ->
  0 <= Reference.sqrtQc q
  /\ Reference.sqrtQc q * Reference.sqrtQc q <= q
  /\ q <= (Reference.sqrtQc q * tolerance) * (Reference.sqrtQc q * tolerance).
Proof.
  unfold Qcle, Reference.sqrtQc, tolerance, Qcmult, Q2Qc. cbn [this].
  rewrite !Qred_correct.
  destruct q as [[n d] Hcanon]. cbn [this Qnum Qden].
  unfold Qle, Qmult. cbn [Qnum Qden]. intros Hn.
  assert (Hn0 : (0 <= n)%Z) by lia. clear Hn.
  set (m := (n * Zpos d * 1000000)%Z).
  assert (Hm : (0 <= m)%Z) by (unfold m; nia).
  pose proof (Z.sqrt_spec m Hm) as Hs. cbv zeta in Hs.
  pose proof (Z.sqrt_nonneg m) as Hz.
  set (z := Z.sqrt m) in *.
  rewrite !Pos2Z.inj_mul.
  assert (Hd : (0 < Zpos d)%Z) by lia.
  set (D := Zpos d) in *.
  split; [|split].
  - nia.
  - assert (H : (z * z * D <= m * D)%Z) by nia. unfold m in H. nia.
  - destruct (Z.eq_dec n 0) as [->|Hne].
    + nia.
    + assert (H1 : (1000000 <= m)%Z) by (unfold m; nia).
      assert (H2 : (1000 <= z)%Z).
      { destruct (Z_lt_le_dec z 1000) as [Hlt|]; [|assumption]. nia. }
      assert (H3 : (m * 1000000 <= (z * 1001) * (z * 1001))%Z) by nia.
      unfold m in H3.
      assert (H4 : (n * D * 1000000 * 1000000 * D
                    <= z * 1001 * (z * 1001) * D)%Z) by nia.
      nia.
Qed.

Lemma sqrtQc_zero : Reference.sqrtQc 0 = 0.
Proof. now apply Qc_is_canon. Qed.

(** The intervals are at distance 0 exactly when they share a point. *)
Lemma intervalDistance_zero_iff (lo0 hi0 lo1 hi1 : Qc) :
  intervalDistance lo0 hi0 lo1 hi1 = 0 <-> lo1 <= hi0 /\ lo0 <= hi1.
Proof.
  assert (Hpos : forall a b : Qc, a < b -> b - a <> 0).
  { intros a b Hlt Heq.
    assert (Hb : b = a).
    { rewrite <- (Qcplus_0_l a), <- Heq. ring. }
    rewrite Hb in Hlt. now apply Qclt_not_eq in Hlt. }
  unfold intervalDistance.
  destruct (hi0 ?= lo1) eqn:H0.
  - apply Qceq_alt in H0. subst lo1.
    destruct (hi1 ?= lo0) eqn:H1.
    + apply Qceq_alt in H1. subst lo0. split; [intros _|reflexivity].
      split; apply Qcle_refl.
    + apply Qclt_alt in H1. split.
      * intros H. now apply Hpos in H1.
      * intros [_ H]. now apply Qclt_not_le in H1.
    + apply Qcgt_alt in H1. split; [intros _|reflexivity].
      split; [apply Qcle_refl|now apply Qclt_le_weak].
  - apply Qclt_alt in H0. split.
    + intros H. now apply Hpos in H0.
    + intros [H _]. now apply Qclt_not_le in H0.
  - apply Qcgt_alt in H0.
    destruct (hi1 ?= lo0) eqn:H1.
    + apply Qceq_alt in H1. subst lo0. split; [intros _|reflexivity].
      split; [now apply Qclt_le_weak|apply Qcle_refl].
    + apply Qclt_alt in H1. split.
      * intros H. now apply Hpos in H1.
      * intros [_ H]. now apply Qclt_not_le in H1.
    + apply Qcgt_alt in H1. split; [intros _|reflexivity].
      split; now apply Qclt_le_weak.
Qed.

(** On intervals with their ends in order the gap of the model is the
    distance of the intervals. *)
Lemma gap_intervalDistance (lo0 hi0 lo1 hi1 : Qc) :
  lo0 <= hi0 -> lo1 <= hi1 ->
  gap (Num lo0) (Num hi0) (Num lo1) (Num hi1)
  = Num (intervalDistance lo0 hi0 lo1 hi1).
Proof.
  intros H0 H1.
  destruct (gap_nearest H0 H1) as [Hfar [Hnear Hmeet]].
  unfold intervalDistance.
  destruct (hi0 ?= lo1) eqn:Ha.
  - apply Qceq_alt in Ha. subst lo1.
    destruct (hi1 ?= lo0) eqn:Hb.
    + apply Qceq_alt in Hb. subst lo0. apply Hmeet; apply Qcle_refl.
    + apply Qclt_alt in Hb. now apply Hnear.
    + apply Qcgt_alt in Hb. apply Hmeet; [apply Qcle_refl|now apply Qclt_le_weak].
  - apply Qclt_alt in Ha. now apply Hfar.
  - apply Qcgt_alt in Ha.
    destruct (hi1 ?= lo0) eqn:Hb.
    + apply Qceq_alt in Hb. subst lo0.
      apply Hmeet; [now apply Qclt_le_weak|apply Qcle_refl].
    + apply Qclt_alt in Hb. now apply Hnear.
    + apply Qcgt_alt in Hb. apply Hmeet; now apply Qclt_le_weak.
Qed.

Lemma ndiv_positive (p s : Qc) : 0 < s -> (Num p / Num s)%js = Num (p / s).
Proof.
  intros Hs. unfold ndiv.
  assert (H : (s ?= 0) = Gt) by now apply Qcgt_alt.
  now rewrite H.
Qed.

Lemma sum_of_squares_nonneg (a b : Qc) : 0 <= a * a + b * b.
Proof. qc_to_q. nra. Qed.

Lemma sum_of_squares_zero (a b : Qc) : a * a + b * b = 0 -> a = 0 /\ b = 0.
Proof.
  intros H.
  assert (Hsquare : forall c : Qc, 0 <= c * c) by (intros c; qc_to_q; nra).
  assert (Hroot : forall c : Qc, c * c = 0 -> c = 0).
  { intros c Hc. now destruct (Qcmult_integral _ _ Hc). }
  split; apply Hroot; apply Qcle_antisym; try apply Hsquare; rewrite <- H.
  - rewrite <- (Qcplus_0_r (a * a)) at 1.
    apply Qcplus_le_compat; [apply Qcle_refl|apply Hsquare].
  - rewrite <- (Qcplus_0_l (b * b)) at 1.
    apply Qcplus_le_compat; [apply Hsquare|apply Qcle_refl].
Qed.

(** The distance of two rectangles with their sides in order: the length of
    the gap between them, by the cell, in grid distance. *)
Lemma measureDistanceRect_euclidean (gridDistance s : Qc) (r0 r1 : Rectangle)
    (reach : option number) (l0 h0 t0 b0 l1 h1 t1 b1 : Qc) :
  0 < s ->
  Rectangle.left r0 = Num l0 -> Rectangle.right r0 = Num h0 ->
  Rectangle.top r0 = Num t0 -> Rectangle.bottom r0 = Num b0 ->
  Rectangle.left r1 = Num l1 -> Rectangle.right r1 = Num h1 ->
  Rectangle.top r1 = Num t1 -> Rectangle.bottom r1 = Num b1 ->
  l0 <= h0 -> t0 <= b0 -> l1 <= h1 -> t1 <= b1 ->
  let dx := intervalDistance l0 h0 l1 h1 in
  let dy := intervalDistance t0 b0 t1 b1 in
  @measureDistanceRect (euclideanUnits gridDistance) (Num s) r0 r1 reach
  = Num (Reference.sqrtQc (dx * dx + dy * dy) * gridDistance / s).
Proof.
  intros Hs Hl0 Hh0 Ht0 Hb0 Hl1 Hh1 Ht1 Hb1 Hx0 Hy0 Hx1 Hy1 dx dy.
  unfold measureDistanceRect, gapX, gapY, rectanglesMeet.
  rewrite Hl0, Hh0, Ht0, Hb0, Hl1, Hh1, Ht1, Hb1.
  rewrite (gap_intervalDistance Hx0 Hx1), (gap_intervalDistance Hy0 Hy1).
  fold dx. fold dy.
  destruct (_ && _) eqn:Hmeet.
  - rewrite !andb_true_iff, !nle_Num in Hmeet.
    assert (Hdx : dx = 0) by (apply intervalDistance_zero_iff; tauto).
    assert (Hdy : dy = 0) by (apply intervalDistance_zero_iff; tauto).
    rewrite Hdx, Hdy.
    replace (0 * 0 + 0 * 0) with 0 by ring. rewrite sqrtQc_zero.
    change (int 0) with (Num 0). f_equal. unfold Qcdiv. ring.
  - cbn [euclideanGridDistance euclideanUnits euclideanLength].
    now apply ndiv_positive.
Qed.

Lemma Qcdiv_pos (a b : Qc) : 0 < a -> 0 < b -> 0 < a / b.
Proof.
  intros Ha Hb.
  apply Qcnot_le_lt. intros Hle.
  assert (H : a / b * b <= 0 * b)
    by (apply Qcmult_le_compat_r; [exact Hle|now apply Qclt_le_weak]).
  replace (a / b * b) with a in H
    by (field; intros ->; now apply (Qclt_not_eq _ _ Hb)).
  rewrite Qcmult_0_l in H. now apply Qclt_not_le in Ha.
Qed.

(** The conversion of the spec is positive on every gap that is not zero. *)
Lemma euclideanUnits_positive (gridDistance s : Qc) :
  0 < gridDistance -> 0 < s ->
  @positiveOnGaps (euclideanUnits gridDistance) (Num s).
Proof.
  intros Hk Hs dx dy Hdx Hdy Hpos.
  exists (Reference.sqrtQc (dx * dx + dy * dy) * gridDistance / s).
  split.
  - cbn [euclideanGridDistance euclideanUnits euclideanLength].
    now apply ndiv_positive.
  - apply Qcdiv_pos; [|exact Hs].
    apply ReferenceFacts.Qcmult_pos; [|exact Hk].
    apply ReferenceFacts.sqrtQc_pos.
    now apply ReferenceFacts.sum_of_squares_pos.
Qed.

(** C5. On a square grid of positive cell size [distanceTo] measures
    between the rectangles of the two tokens, each the token's footprint
    moved in by half a cell on every side. For rectangles with their sides
    in order the distance is zero exactly when the two rectangles overlap
    or touch, and it is the Euclidean length of the gap between their
    nearest sides (the square root taken from below, to within a
    thousandth), divided by the cell size and multiplied by the distance of
    one cell. *)
Theorem distanceTo_square (gridDistance s : Qc) (canvas : Canvas)
    (dims : Canvas.Dimensions) (A B : TokenPF2e) (reach : option number)
    (leftA rightA topA bottomA leftB rightB topB bottomB : Qc) :
  0 < gridDistance -> 0 < s ->
  Canvas.dimensions canvas = Some dims ->
  Canvas.type (Canvas.grid canvas) = SQUARE ->
  Canvas.size dims = Num s ->
  let rectA := tokenRect (Num s) A in
  let rectB := tokenRect (Num s) B in
  Rectangle.left rectA = Num leftA -> Rectangle.right rectA = Num rightA ->
  Rectangle.top rectA = Num topA -> Rectangle.bottom rectA = Num bottomA ->
  Rectangle.left rectB = Num leftB -> Rectangle.right rectB = Num rightB ->
  Rectangle.top rectB = Num topB -> Rectangle.bottom rectB = Num bottomB ->
  leftA <= rightA -> topA <= bottomA -> leftB <= rightB -> topB <= bottomB ->
  let dx := intervalDistance leftA rightA leftB rightB in
  let dy := intervalDistance topA bottomA topB bottomB in
  let distance := @distanceTo (euclideanUnits gridDistance) canvas A B reach in
  (forall (t : TokenPF2e) (x y w h : Qc),
      Token.x t = Num x -> Token.y t = Num y ->
      Token.w t = Num w -> Token.h t = Num h ->
      Rectangle.left (tokenRect (Num s) t) = Num (x + half s)
      /\ Rectangle.top (tokenRect (Num s) t) = Num (y + half s)
      /\ Rectangle.right (tokenRect (Num s) t) = Num (x + w - half s)
      /\ Rectangle.bottom (tokenRect (Num s) t) = Num (y + h - half s))
  /\ distance
     = @measureDistanceRect (euclideanUnits gridDistance) (Num s) rectA rectB reach
  /\ (distance = int 0 <->
      leftB <= rightA /\ leftA <= rightB /\ topB <= bottomA /\ topA <= bottomB)
  /\ exists length : Qc,
       distance = Num (length * gridDistance / s)
       /\ 0 <= length
       /\ length * length <= dx * dx + dy * dy
       /\ dx * dx + dy * dy <= (length * tolerance) * (length * tolerance).
Proof.
  intros Hk Hs Hdim Htype Hsize rectA rectB HlA HrA HtA HbA HlB HrB HtB HbB
    HorderA HorderA' HorderB HorderB' dx dy distance.
  assert (Hrect :
            distance
            = @measureDistanceRect (euclideanUnits gridDistance) (Num s)
                rectA rectB reach).
  { unfold distance, distanceTo. now rewrite Hdim, Htype, Hsize. }
  assert (Hdistance :
            distance
            = Num (Reference.sqrtQc (dx * dx + dy * dy) * gridDistance / s)).
  { rewrite Hrect.
    now apply (measureDistanceRect_euclidean gridDistance rectA rectB reach Hs
                 HlA HrA HtA HbA HlB HrB HtB HbB). }
  destruct (sqrtQc_spec (sum_of_squares_nonneg dx dy)) as [Hroot0 [Hbelow Habove]].
  split; [intros t x y w h; apply tokenRect_inset|].
  split; [exact Hrect|]. split.
  - rewrite Hdistance.
    assert (Hshare :
              dx = 0 /\ dy = 0 <->
              leftB <= rightA /\ leftA <= rightB
              /\ topB <= bottomA /\ topA <= bottomB).
    { unfold dx, dy. rewrite !intervalDistance_zero_iff. tauto. }
    rewrite <- Hshare. split.
    + intros Hzero.
      apply sum_of_squares_zero.
      destruct (Qcle_lt_or_eq _ _ (sum_of_squares_nonneg dx dy)) as [Hpos|Heq];
        [|now symmetry].
      exfalso.
      assert (Hlen : 0 < Reference.sqrtQc (dx * dx + dy * dy) * gridDistance / s).
      { apply Qcdiv_pos; [|exact Hs].
        apply ReferenceFacts.Qcmult_pos; [|exact Hk].
        now apply ReferenceFacts.sqrtQc_pos. }
      apply (f_equal (fun n => match n with Num q => q | NaN => 0 end)) in Hzero.
      cbn in Hzero. rewrite Hzero in Hlen. now apply Qclt_not_eq in Hlen.
    + intros [-> ->].
      replace (0 * 0 + 0 * 0) with 0 by ring. rewrite sqrtQc_zero.
      change (int 0) with (Num 0). f_equal. unfold Qcdiv. ring.
  - exists (Reference.sqrtQc (dx * dx + dy * dy)). tauto.
Qed.

(** On the square scene the hero's rectangle is the point (50, 150) and the
    giant's the square from (350, 50) to (450, 150): they are 300 pixels
    apart, which is 15 in grid distance. *)
Lemma distanceTo_square_witness :
  exists length : Qc,
    @distanceTo (euclideanUnits (Q2Qc (inject_Z 5))) Reference.squareScene
      Reference.heroA Reference.giant None
    = Num (length * Q2Qc (inject_Z 5) / Q2Qc (inject_Z 100))
    /\ 0 <= length
    /\ length * length <= Q2Qc (inject_Z 90000).
Proof.
  assert (Hk : 0 < Q2Qc (inject_Z 5)) by reflexivity.
  assert (Hs : 0 < Q2Qc (inject_Z 100)) by reflexivity.
  assert (Hpoint : Q2Qc (inject_Z 50) <= Q2Qc (inject_Z 50)) by discriminate.
  assert (Hpoint' : Q2Qc (inject_Z 150) <= Q2Qc (inject_Z 150)) by discriminate.
  assert (Hwide : Q2Qc (inject_Z 350) <= Q2Qc (inject_Z 450)) by discriminate.
  assert (Hhigh : Q2Qc (inject_Z 50) <= Q2Qc (inject_Z 150)) by discriminate.
  pose proof (@distanceTo_square (Q2Qc (inject_Z 5)) (Q2Qc (inject_Z 100))
                Reference.squareScene Reference.cells100
                Reference.heroA Reference.giant None
                (Q2Qc (inject_Z 50)) (Q2Qc (inject_Z 50))
                (Q2Qc (inject_Z 150)) (Q2Qc (inject_Z 150))
                (Q2Qc (inject_Z 350)) (Q2Qc (inject_Z 450))
                (Q2Qc (inject_Z 50)) (Q2Qc (inject_Z 150))
                Hk Hs eq_refl eq_refl eq_refl
                eq_refl eq_refl eq_refl eq_refl eq_refl eq_refl eq_refl eq_refl
                Hpoint Hpoint' Hwide Hhigh) as H.
  cbv zeta in H.
  destruct H as [_ [_ [_ [length [Hdistance [Hlength [Hbelow _]]]]]]].
  exists length. split; [exact Hdistance|]. split; [exact Hlength|].
  refine (Qcle_trans _ _ _ Hbelow _). discriminate.
Defined.

(** C6. With the conversion of the spec at a positive cell size, the
    distance between two rectangles does not depend on their order, is zero
    when they overlap, and is positive when they are disjoint rectangles of
    numeric coordinates; on a square grid the same holds of [distanceTo]
    and the rectangles of the two tokens. *)
Theorem distanceTo_symmetric (gridDistance s : Qc) (canvas : Canvas)
    (dims : Canvas.Dimensions) (A B : TokenPF2e) (reach : option number) :
  0 < gridDistance -> 0 < s ->
  Canvas.dimensions canvas = Some dims ->
  Canvas.type (Canvas.grid canvas) = SQUARE ->
  Canvas.size dims = Num s ->
  let rA := tokenRect (Num s) A in
  let rB := tokenRect (Num s) B in
  let measure := @measureDistanceRect (euclideanUnits gridDistance) (Num s) in
  let distance := @distanceTo (euclideanUnits gridDistance) canvas in
  (forall r0 r1 : Rectangle,
      measure r0 r1 reach = measure r1 r0 reach
      /\ (rectanglesOverlap r0 r1 = true -> measure r0 r1 reach = int 0)
      /\ (finiteRect r0 -> finiteRect r1 -> rectanglesDisjoint r0 r1 = true ->
          exists q : Qc, measure r0 r1 reach = Num q /\ 0 < q))
  /\ distance A B reach = distance B A reach
  /\ (rectanglesOverlap rA rB = true -> distance A B reach = int 0)
  /\ (finiteRect rA -> finiteRect rB -> rectanglesDisjoint rA rB = true ->
      exists q : Qc, distance A B reach = Num q /\ 0 < q).
Proof.
  intros Hk Hs Hdim Htype Hsize rA rB measure distance.
  assert (Hrect : forall r0 r1 : Rectangle,
      measure r0 r1 reach = measure r1 r0 reach
      /\ (rectanglesOverlap r0 r1 = true -> measure r0 r1 reach = int 0)
      /\ (finiteRect r0 -> finiteRect r1 -> rectanglesDisjoint r0 r1 = true ->
          exists q : Qc, measure r0 r1 reach = Num q /\ 0 < q)).
  { intros r0 r1. unfold measure. split; [apply measureDistanceRect_sym|]. split.
    - intros Hover. unfold measureDistanceRect.
      now rewrite (rectanglesOverlap_meet _ _ Hover).
    - intros Hf0 Hf1 Hdis.
      apply measureDistanceRect_disjoint; try assumption.
      now apply euclideanUnits_positive. }
  assert (H : forall X Y : TokenPF2e,
            distance X Y reach
            = measure (tokenRect (Num s) X) (tokenRect (Num s) Y) reach).
  { intros X Y. unfold distance, distanceTo. now rewrite Hdim, Htype, Hsize. }
  split; [exact Hrect|].
  rewrite !H. fold rA. fold rB.
  destruct (Hrect rA rB) as [Hsym [Hzero Hpos]].
  repeat split; assumption.
Qed.

(** The hero and the giant are apart on the square scene: their distance
    is the same in both directions, and positive. *)
Lemma distanceTo_symmetric_witness :
  rectanglesDisjoint (tokenRect (int 100) Reference.heroA)
    (tokenRect (int 100) Reference.giant) = true
  /\ @distanceTo (euclideanUnits (Q2Qc (inject_Z 5))) Reference.squareScene
       Reference.heroA Reference.giant None
     = @distanceTo (euclideanUnits (Q2Qc (inject_Z 5))) Reference.squareScene
         Reference.giant Reference.heroA None
  /\ exists q : Qc,
       @distanceTo (euclideanUnits (Q2Qc (inject_Z 5))) Reference.squareScene
         Reference.heroA Reference.giant None = Num q
       /\ 0 < q.
Proof.
  destruct (@distanceTo_symmetric (Q2Qc (inject_Z 5)) (Q2Qc (inject_Z 100))
              Reference.squareScene Reference.cells100
              Reference.heroA Reference.giant None
              eq_refl eq_refl eq_refl eq_refl eq_refl)
    as [_ [Hsym [_ Hpos]]].
  split; [vm_compute; reflexivity|]. split; [exact Hsym|].
  apply Hpos.
  - unfold finiteRect. repeat eexists.
  - unfold finiteRect. repeat eexists.
  - vm_compute. reflexivity.
Defined.

(** C8. The flanking arrangement is symmetric in the two flankers.
    Exchanging the flankers is exchanging the two ends of the segment in
    every call of the host's tests and changes nothing else, whatever the
    host; and the tests as the spec words them, a segment meeting a circle
    and a segment crossing a side, do not depend on the order of the ends:
    the opposite-corners test, the opposite-sides test and their
    disjunction give the same answer for the flankers in either order. *)
Theorem isAFlankingArrangement_symmetric (A B F : TokenPF2e) :
  (forall host : FoundryUtils,
      @areOnOppositeCorners host B A F
      = @areOnOppositeCorners (swapEndpoints host) A B F
      /\ @areOnOppositeSides host B A F
         = @areOnOppositeSides (swapEndpoints host) A B F
      /\ @isAFlankingArrangement host B A F
         = @isAFlankingArrangement (swapEndpoints host) A B F)
  /\ @areOnOppositeCorners geometricUtils A B F
     = @areOnOppositeCorners geometricUtils B A F
  /\ @areOnOppositeSides geometricUtils A B F
     = @areOnOppositeSides geometricUtils B A F
  /\ @isAFlankingArrangement geometricUtils A B F
     = @isAFlankingArrangement geometricUtils B A F.
Proof.
  assert (Hcorners : @areOnOppositeCorners geometricUtils A B F
                     = @areOnOppositeCorners geometricUtils B A F).
  { unfold areOnOppositeCorners. cbn [lineCircleIntersection geometricUtils].
    apply ReferenceFacts.circleTest_sym. }
  assert (Hsides : @areOnOppositeSides geometricUtils A B F
                   = @areOnOppositeSides geometricUtils B A F).
  { unfold areOnOppositeSides, crosses. cbn [lineSegmentIntersects geometricUtils].
    now rewrite !(ReferenceFacts.segmentTest_sym (Token.center A) (Token.center B)). }
  split; [intros host; repeat split|].
  split; [exact Hcorners|]. split; [exact Hsides|].
  unfold isAFlankingArrangement. now rewrite Hcorners, Hsides.
Qed.

End SpecCollaborators.

(** ** The properties on the reference scene *)

Section Scenarios.

Import Reference.

#[local] Existing Instance Reference.utils.
#[local] Existing Instance Reference.units.

(** The two heroes stand left and right of the monster, each within reach:
    hero A flanks it, with hero B as the buddy. *)
Lemma isFlanking_iff_buddy_witness :
  isFlanking squareScene heroA foe = Ok true
  /\ canFlank squareScene heroA foe = Ok true
  /\ exists B : TokenPF2e,
       In B (Canvas.placeables (Canvas.tokens squareScene))
       /\ Token.oid B <> Token.oid heroA
       /\ canFlank squareScene B foe = Ok true.
Proof.
  assert (H : isFlanking squareScene heroA foe = Ok true)
    by (vm_compute; reflexivity).
  destruct (proj1 (proj1 (proj2 (isFlanking_iff_buddy squareScene heroA foe))) H)
    as [Hcan [B [Hin [Hne [HcanB _]]]]].
  split; [exact H|]. split; [exact Hcan|].
  exists B. split; [exact Hin|]. split; [exact Hne|exact HcanB].
Defined.

(** The two heroes are both owned by players and cannot flank each other. *)
Lemma canFlank_allied_witness :
  playerAllegiance heroA = playerAllegiance heroB
  /\ canFlank squareScene heroA heroB = Ok false.
Proof.
  split; [reflexivity|].
  apply (canFlank_allied squareScene heroA heroB). reflexivity.
Defined.

(** Both heroes can flank the monster, and they carry the same flag. *)
Lemma flankers_share_allegiance_witness :
  canFlank squareScene heroA foe = Ok true
  /\ canFlank squareScene heroB foe = Ok true
  /\ playerAllegiance heroA = playerAllegiance heroB.
Proof.
  assert (HA : canFlank squareScene heroA foe = Ok true)
    by (vm_compute; reflexivity).
  assert (HB : canFlank squareScene heroB foe = Ok true)
    by (vm_compute; reflexivity).
  split; [exact HA|]. split; [exact HB|].
  exact (proj1 (flankers_share_allegiance squareScene heroA heroB foe) HA HB).
Defined.

(** A token without an actor flanks nothing, and nothing flanks it. *)
Lemma canFlank_never_throws_witness :
  Token.actor marker = None
  /\ canFlank squareScene marker foe = Ok false
  /\ canFlank squareScene heroA marker = Ok false.
Proof.
  split; [reflexivity|]. split.
  - apply (proj1 (proj2 (canFlank_never_throws squareScene marker foe))).
    reflexivity.
  - apply (proj1 (proj2 (proj2 (canFlank_never_throws squareScene heroA marker)))).
    reflexivity.
Defined.

(** Before the scene is ready the hero cannot flank the monster next to it. *)
Lemma canFlank_unready_witness :
  Canvas.dimensions unreadyScene = None
  /\ distanceTo unreadyScene heroA foe None = NaN
  /\ canFlank unreadyScene heroA foe = Ok false.
Proof.
  split; [reflexivity|].
  apply (canFlank_unready unreadyScene heroA foe None). reflexivity.
Defined.

(** On the hexagonal scene the hero and the giant are measured between
    their positions. *)
Lemma distanceTo_non_square_witness :
  Canvas.dimensions hexScene = Some cells100
  /\ Canvas.type (Canvas.grid hexScene) <> SQUARE
  /\ distanceTo hexScene heroA giant None
     = Canvas.measureDistance (Canvas.grid hexScene)
         (Token.position heroA) (Token.position giant).
Proof.
  assert (Htype : Canvas.type (Canvas.grid hexScene) <> SQUARE)
    by (cbn; discriminate).
  split; [reflexivity|]. split; [exact Htype|].
  exact (proj1 (@distanceTo_non_square Reference.units hexScene cells100
                  heroA giant None eq_refl Htype)).
Defined.

(** C2, as stated, fails. On the hexagonal scene the hero stands at
    (0, 100) and the giant at (300, 0), their centers are (50, 150) and
    (400, 100): [distanceTo] answers with the distance between the
    positions, which is not the distance between the centers. *)
Lemma distanceTo_non_square_not_between_centers :
  Canvas.dimensions hexScene <> None
  /\ Canvas.type (Canvas.grid hexScene) <> SQUARE
  /\ distanceTo hexScene heroA giant None
     <> Canvas.measureDistance (Canvas.grid hexScene)
          (Token.center heroA) (Token.center giant).
Proof.
  split; [cbn; discriminate|]. split; [cbn; discriminate|].
  intros H.
  apply (f_equal (fun n => match n with Num q => this q | NaN => 0%Q end)) in H.
  vm_compute in H. discriminate H.
Qed.

End Scenarios.

(** ** Further properties of the flanking code *)

Section Flanking.

Context {utils : FoundryUtils} {units : GridUnits}.

Lemma includes_character_npc (s : string) :
  includes ["character"; "npc"]%string s = true
  <-> s = "character"%string \/ s = "npc"%string.
Proof.
  unfold includes. cbn [existsb].
  rewrite !orb_true_iff, !String.eqb_eq. intuition discriminate.
Qed.

Lemma nge_Num (p q : Qc) : (Num p >= Num q)%js = true <-> (q <= p)%Qc.
Proof.
  unfold nge, ncompare.
  assert (H : (q <= p)%Qc <-> (p ?= q)%Qc <> Lt) by apply Qcge_alt.
  rewrite H. destruct (p ?= q)%Qc; split; congruence.
Qed.

Lemma nge_true (a b : number) :
  (a >= b)%js = true <-> exists p q : Qc, a = Num p /\ b = Num q /\ (q <= p)%Qc.
Proof.
  destruct a as [|p], b as [|q].
  - split; [discriminate|]. intros [p [q [H _]]]. discriminate H.
  - split; [discriminate|]. intros [p [q' [H _]]]. discriminate H.
  - split; [discriminate|]. intros [p' [q [_ [H _]]]]. discriminate H.
  - rewrite nge_Num. split.
    + intros H. now exists p, q.
    + intros [p' [q' [Hp [Hq H]]]]. congruence.
Qed.

(** X1. [canFlank] answers true exactly when flanker and flankee are two
    tokens, the flanker's actor is a character or an NPC that can attack,
    the flankee's actor is a creature, their player-allegiance flags differ,
    and the distance between them is a number no greater than the flanker's
    attack reach. *)
Theorem canFlank_true_iff (canvas : Canvas) (A F : TokenPF2e) :
  canFlank canvas A F = Ok true <->
  Token.oid A <> Token.oid F
  /\ exists (a b : ActorPF2e) (reach distance : Qc),
       Token.actor A = Some a
       /\ Token.actor F = Some b
       /\ (Actor.type a = "character"%string \/ Actor.type a = "npc"%string)
       /\ Actor.instanceofCreaturePF2e b = true
       /\ nullish (Actor.hasPlayerOwner a) false
          <> nullish (Actor.hasPlayerOwner b) false
       /\ Actor.canAttack a = true
       /\ Actor.getReach a to_attack = Num reach
       /\ distanceTo canvas A F (Some (Num reach)) = Num distance
       /\ (distance <= reach)%Qc.
Proof.
  rewrite canFlank_verdict.
  unfold canFlankVerdict, flankCapable, flankable, attackInReach, playerAllegiance.
  split.
  - intros H.
    assert (H' : negb (Token.same A F)
                 && match Token.actor A with
                    | Some a => includes ["character"; "npc"]%string (Actor.type a)
                    | None => false
                    end
                 && match Token.actor F with
                    | Some a => Actor.instanceofCreaturePF2e a
                    | None => false
                    end
                 && xorb
                      match Token.actor A with
                      | Some a => nullish (Actor.hasPlayerOwner a) false
                      | None => false
                      end
                      match Token.actor F with
                      | Some a => nullish (Actor.hasPlayerOwner a) false
                      | None => false
                      end
                 && match Token.actor A with
                    | Some a =>
                        Actor.canAttack a
                        && (Actor.getReach a to_attack
                            >= distanceTo canvas A F
                                 (Some (Actor.getReach a to_attack)))%js
                    | None => false
                    end = true) by congruence.
    clear H. rewrite !andb_true_iff in H'.
    destruct H' as [[[[Hne Htype] Hcreature] Hflag] Hreach].
    apply negb_true_iff, same_false_iff in Hne.
    split; [exact Hne|].
    destruct (Token.actor A) as [a|]; [|discriminate].
    destruct (Token.actor F) as [b|]; [|discriminate].
    apply includes_character_npc in Htype.
    apply andb_true_iff in Hreach. destruct Hreach as [Hattack Hreach].
    apply nge_true in Hreach. destruct Hreach as [r [d [Hr [Hd Hle]]]].
    exists a, b, r, d. rewrite Hr in Hd.
    repeat split; try assumption.
    intros Heq. rewrite Heq, xorb_nilpotent in Hflag. discriminate.
  - intros [Hne [a [b [r [d [-> [-> [Htype [Hcreature [Hflag [Hattack [Hr [Hd Hle]]]]]]]]]]]]].
    f_equal. rewrite Hr, Hd, Hattack, Hcreature.
    apply same_false_iff in Hne. rewrite Hne.
    apply includes_character_npc in Htype. rewrite Htype.
    apply (proj2 (nge_Num r d)) in Hle. rewrite Hle. cbn.
    destruct (nullish (Actor.hasPlayerOwner a) false),
             (nullish (Actor.hasPlayerOwner b) false); try reflexivity;
      now elim Hflag.
Qed.

(** The verdict of [canFlank] reads the dimensions and the grid of the
    canvas, not the tokens placed on it. *)
Lemma canFlankVerdict_canvas (canvas canvas' : Canvas) (A F : TokenPF2e) :
  Canvas.dimensions canvas' = Canvas.dimensions canvas ->
  Canvas.grid canvas' = Canvas.grid canvas ->
  canFlankVerdict canvas' A F = canFlankVerdict canvas A F.
Proof.
  intros Hdim Hgrid.
  unfold canFlankVerdict, attackInReach, distanceTo.
  now rewrite Hdim, Hgrid.
Qed.

Lemma isFlanking_true_iff (canvas : Canvas) (A F : TokenPF2e) :
  isFlanking canvas A F = Ok true <->
  canFlankVerdict canvas A F = true
  /\ exists B : TokenPF2e,
       In B (Canvas.placeables (Canvas.tokens canvas))
       /\ Token.same B A = false
       /\ canFlankVerdict canvas B F = true
       /\ isAFlankingArrangement A B F = true.
Proof.
  rewrite isFlanking_verdict. split.
  - intros H.
    assert (H' : canFlankVerdict canvas A F
                 && existsb (fun t => negb (Token.same t A)
                                      && canFlankVerdict canvas t F
                                      && isAFlankingArrangement A t F)
                      (Canvas.placeables (Canvas.tokens canvas)) = true)
      by congruence.
    apply andb_prop in H'. destruct H' as [HA Hex].
    split; [exact HA|].
    apply existsb_exists in Hex. destruct Hex as [B [Hin HB]].
    rewrite !andb_true_iff, negb_true_iff in HB.
    exists B. tauto.
  - intros [HA [B [Hin [Hne [HB Harr]]]]]. f_equal.
    rewrite HA. cbn. apply existsb_exists. exists B.
    split; [exact Hin|]. now rewrite Hne, HB, Harr.
Qed.

Lemma isFlanking_Ok (canvas : Canvas) (A F : TokenPF2e) :
  isFlanking canvas A F = Ok true \/ isFlanking canvas A F = Ok false.
Proof.
  rewrite isFlanking_verdict.
  destruct (canFlankVerdict canvas A F && _); auto.
Qed.

(** X2. Placing more tokens never ends a flank: if A flanks F on a canvas,
    it does so on every canvas of the same dimensions and grid whose placed
    tokens include those of the first. *)
Theorem isFlanking_more_tokens (canvas canvas' : Canvas) (A F : TokenPF2e) :
  Canvas.dimensions canvas' = Canvas.dimensions canvas ->
  Canvas.grid canvas' = Canvas.grid canvas ->
  incl (Canvas.placeables (Canvas.tokens canvas))
       (Canvas.placeables (Canvas.tokens canvas')) ->
  isFlanking canvas A F = Ok true ->
  isFlanking canvas' A F = Ok true.
Proof.
  intros Hdim Hgrid Hincl.
  rewrite !isFlanking_true_iff.
  intros [HA [B [Hin [Hne [HB Harr]]]]].
  rewrite !(canFlankVerdict_canvas canvas canvas' _ _ Hdim Hgrid).
  split; [exact HA|].
  exists B. split; [now apply Hincl|]. now rewrite (canFlankVerdict_canvas canvas canvas' _ _ Hdim Hgrid).
Qed.

(** X3. [isFlanking] depends on which tokens are placed, not on their order
    in [canvas.tokens.placeables] nor on how often one is listed. *)
Theorem isFlanking_same_tokens (canvas canvas' : Canvas) (A F : TokenPF2e) :
  Canvas.dimensions canvas' = Canvas.dimensions canvas ->
  Canvas.grid canvas' = Canvas.grid canvas ->
  (forall t : TokenPF2e,
      In t (Canvas.placeables (Canvas.tokens canvas))
      <-> In t (Canvas.placeables (Canvas.tokens canvas'))) ->
  isFlanking canvas' A F = isFlanking canvas A F.
Proof.
  intros Hdim Hgrid Hsame.
  assert (Hiff : isFlanking canvas' A F = Ok true <-> isFlanking canvas A F = Ok true).
  { rewrite !isFlanking_true_iff.
    rewrite !(canFlankVerdict_canvas canvas canvas' _ _ Hdim Hgrid).
    split; intros [HA [B [Hin [Hne [HB Harr]]]]]; (split; [exact HA|]);
      exists B; (split; [now apply Hsame|]);
      rewrite (canFlankVerdict_canvas canvas canvas' _ _ Hdim Hgrid) in *; auto. }
  destruct (isFlanking_Ok canvas A F) as [H|H],
           (isFlanking_Ok canvas' A F) as [H'|H']; try congruence.
  - apply Hiff in H. congruence.
  - apply Hiff in H'. congruence.
Qed.

(** X4. A flank takes three tokens: when A flanks F, some placed token that
    is neither A nor F can flank F as well and stands in a flanking
    arrangement with A, and A is not F. *)
Theorem isFlanking_three_tokens (canvas : Canvas) (A F : TokenPF2e) :
  isFlanking canvas A F = Ok true ->
  Token.oid A <> Token.oid F
  /\ exists B : TokenPF2e,
       In B (Canvas.placeables (Canvas.tokens canvas))
       /\ Token.oid B <> Token.oid A
       /\ Token.oid B <> Token.oid F
       /\ canFlank canvas B F = Ok true
       /\ isAFlankingArrangement A B F = true.
Proof.
  rewrite isFlanking_true_iff.
  assert (Hdistinct : forall X, canFlankVerdict canvas X F = true ->
                                Token.oid X <> Token.oid F).
  { intros X HX. unfold canFlankVerdict in HX. rewrite !andb_true_iff in HX.
    apply same_false_iff. apply negb_true_iff. tauto. }
  intros [HA [B [Hin [Hne [HB Harr]]]]].
  split; [now apply Hdistinct|].
  exists B. rewrite canFlank_verdict, HB.
  repeat split; try assumption.
  - now apply same_false_iff.
  - now apply Hdistinct.
Qed.

(** X5. Flanking is mutual. When the host's intersection tests ignore the
    order of the segment's endpoints and A is itself placed on the canvas,
    the buddy through which A flanks F flanks F too. *)
Theorem isFlanking_mutual (canvas : Canvas) (A F : TokenPF2e) :
  (forall (a b c : Point) (r : number),
      Nat.ltb 0 (List.length (intersections (lineCircleIntersection a b c r)))
      = Nat.ltb 0 (List.length (intersections (lineCircleIntersection b a c r)))) ->
  (forall a b c d : Point,
      lineSegmentIntersects a b c d = lineSegmentIntersects b a c d) ->
  In A (Canvas.placeables (Canvas.tokens canvas)) ->
  isFlanking canvas A F = Ok true ->
  exists B : TokenPF2e,
    In B (Canvas.placeables (Canvas.tokens canvas))
    /\ Token.oid B <> Token.oid A
    /\ isFlankingBuddy canvas A F B = Ok true
    /\ isFlanking canvas B F = Ok true.
Proof.
  intros Hcircle Hsegment HinA.
  assert (Hswap : forall X Y : TokenPF2e,
            isAFlankingArrangement X Y F = isAFlankingArrangement Y X F).
  { intros X Y.
    unfold isAFlankingArrangement, areOnOppositeCorners, areOnOppositeSides, crosses.
    rewrite (Hcircle (Token.center X)).
    now rewrite !(Hsegment (Token.center X) (Token.center Y)). }
  rewrite isFlanking_true_iff.
  intros [HA [B [Hin [Hne [HB Harr]]]]].
  exists B. split; [exact Hin|]. split; [now apply same_false_iff|]. split.
  - rewrite isFlankingBuddy_verdict. now rewrite Hne, HB, Harr.
  - apply isFlanking_true_iff. split; [exact HB|].
    exists A. split; [exact HinA|]. split; [now rewrite same_sym|].
    split; [exact HA|]. now rewrite Hswap.
Qed.

(** X6. While the canvas has no dimensions nobody flanks anybody. *)
Theorem isFlanking_unready (canvas : Canvas) (A F : TokenPF2e) :
  Canvas.dimensions canvas = None ->
  isFlanking canvas A F = Ok false.
Proof.
  intros Hdim. rewrite isFlanking_verdict. f_equal.
  assert (H : canFlankVerdict canvas A F = false).
  { unfold canFlankVerdict, attackInReach, distanceTo. rewrite Hdim.
    destruct (Token.actor A) as [a|].
    - now rewrite nge_NaN, !andb_false_r.
    - now rewrite andb_false_r. }
  now rewrite H.
Qed.

End Flanking.

(** ** Further properties of the distance code *)

Section TokenRect.

Context {utils : FoundryUtils} {units : GridUnits}.

Lemma Qcle_shift (a b c d : Qc) :
  (b + - a = d + - c)%Qc -> ((a <= b)%Qc <-> (c <= d)%Qc).
Proof.
  intros H. rewrite (Qcle_minus_iff a b), (Qcle_minus_iff c d).
  now rewrite H.
Qed.

(** X7. The rectangle [distanceTo] builds of a token has a width that is
    not negative exactly when the token is at least one cell wide, and a
    height that is not negative exactly when it is at least one cell high.
    A token of at least one cell has the left side of its rectangle not
    right of the right side and the top not below the bottom; for a token
    of one cell the sides coincide, the rectangle is a point. *)
Theorem tokenRect_sides (t : TokenPF2e) (x y w h s : Qc) :
  Token.x t = Num x -> Token.y t = Num y ->
  Token.w t = Num w -> Token.h t = Num h ->
  let r := tokenRect (Num s) t in
  ((int 0 <= Rectangle.width r)%js = true <-> (s <= w)%Qc)
  /\ ((int 0 <= Rectangle.height r)%js = true <-> (s <= h)%Qc)
  /\ ((s <= w)%Qc -> (Rectangle.left r <= Rectangle.right r)%js = true)
  /\ ((s <= h)%Qc -> (Rectangle.top r <= Rectangle.bottom r)%js = true)
  /\ (w = s -> Rectangle.right r = Rectangle.left r)
  /\ (h = s -> Rectangle.bottom r = Rectangle.top r).
Proof.
  intros Hx Hy Hw Hh r.
  destruct (tokenRect_inset t s Hx Hy Hw Hh) as [Hl [Ht [Hr Hb]]].
  fold r in Hl, Ht, Hr, Hb. rewrite Hl, Ht, Hr, Hb.
  assert (Hextent : forall e : Qc, (0 <= e - s)%Qc <-> (s <= e)%Qc).
  { intros e. symmetry. apply Qcle_minus_iff. }
  assert (Hgap : forall p e : Qc,
            (p + e - half s + - (p + half s) = e + - s)%Qc).
  { intros p e. rewrite <- (half_twice s) at 3. ring. }
  assert (Hpoint : forall p : Qc, (p + s - half s = p + half s)%Qc).
  { intros p. rewrite <- (half_twice s) at 1. ring. }
  assert (Hwidth : Rectangle.width r = Num (w - s)).
  { unfold r, tokenRect. cbn [Rectangle.width]. now rewrite Hw. }
  assert (Hheight : Rectangle.height r = Num (h - s)).
  { unfold r, tokenRect. cbn [Rectangle.height]. now rewrite Hh. }
  rewrite Hwidth, Hheight. change (int 0) with (Num 0%Qc).
  split; [|split; [|split; [|split; [|split]]]].
  - rewrite nle_Num. apply Hextent.
  - rewrite nle_Num. apply Hextent.
  - intros Hle. apply nle_Num. apply (Qcle_shift (Hgap x w)). exact Hle.
  - intros Hle. apply nle_Num. apply (Qcle_shift (Hgap y h)). exact Hle.
  - intros ->. now rewrite Hpoint.
  - intros ->. now rewrite Hpoint.
Qed.

End TokenRect.

(** ** Properties of updateSource *)

Section UpdateSourceProperties.

Variable Host : Type.

Lemma Qcmax_cases (p q : Qc) :
  ((q <= p)%Qc /\ Qcmax p q = p) \/ ((p < q)%Qc /\ Qcmax p q = q).
Proof.
  unfold Qcmax. destruct (p ?= q)%Qc eqn:Hc.
  - left. split; [|reflexivity]. apply Qceq_alt in Hc. subst. apply Qcle_refl.
  - right. split; [|reflexivity]. now apply Qclt_alt.
  - left. split; [|reflexivity]. apply Qclt_le_weak. now apply Qcgt_alt.
Qed.

(** X8. [updateSource] leaves the light of the token as it found it. When
    it raises the light (the actor is not an NPC and a controlled token sees
    in low light or in darkness), [dim] and [bright] are back at their old
    values afterwards whatever the inherited method did to them; in the
    other case they are unchanged provided the inherited method does not
    change them. *)
Theorem updateSource_restores_light
    (superUpdateSource : SourceUpdate -> TokenState Host -> TokenState Host)
    (actor : option ActorPF2e) (sight : SightLayer)
    (options : option UpdateSourceOptions) (st : TokenState Host) :
  ((forall a : ActorPF2e, actor = Some a -> Actor.type a <> "npc"%string) ->
   hasLowLightVision sight = true \/ hasDarkvision sight = true ->
   light (updateSource superUpdateSource actor sight options st) = light st)
  /\ ((forall (args : SourceUpdate) (s : TokenState Host),
          light (superUpdateSource args s) = light s) ->
      light (updateSource superUpdateSource actor sight options st) = light st).
Proof.
  assert (Hrestore : forall s s' : TokenState Host,
            light (setDim (setBright s' (Light.bright (light s)))
                     (Light.dim (light s))) = light s).
  { intros s s'. unfold setDim, setBright. cbn. now destruct (light s). }
  split.
  - intros Hnpc Hsight. unfold updateSource.
    assert (Hcond : (match actor with
                     | Some a => String.eqb (Actor.type a) "npc"
                     | None => false
                     end
                     || negb (hasLowLightVision sight || hasDarkvision sight))
                    = false).
    { apply orb_false_iff. split.
      - destruct actor as [a|]; [|reflexivity].
        apply String.eqb_neq. now apply Hnpc.
      - apply negb_false_iff, orb_true_iff. exact Hsight. }
    rewrite Hcond. cbv zeta. cbn [Light.dim Light.bright]. apply Hrestore.
  - intros Hsuper. unfold updateSource.
    destruct (_ || _); [apply Hsuper|].
    cbv zeta. cbn [Light.dim Light.bright]. apply Hrestore.
Qed.

(** X9. What the inherited [updateSource] is given. For an NPC, or when no
    controlled token sees in low light or in darkness, it runs on the state
    as it is. Otherwise it runs on a state that differs in the light only:
    [dim] is 0 and [bright] is the larger of the old [dim] and [bright], so
    everything the token lit is lit brightly; the old values are written
    back on its result. In both cases the options are handed on with false
    for each missing member. *)
Theorem updateSource_raises_light
    (actor : option ActorPF2e) (sight : SightLayer)
    (options : option UpdateSourceOptions) (st : TokenState Host) (d b : Qc) :
  light st = Light.mk (Num d) (Num b) ->
  let given := nullish options (mkUpdateSourceOptions None None None) in
  let args :=
    mkSourceUpdate (nullish (defer given) false) (nullish (deleted given) false)
      (nullish (skipUpdateFog given) false) in
  ((exists a : ActorPF2e, actor = Some a /\ Actor.type a = "npc"%string)
   \/ (hasLowLightVision sight = false /\ hasDarkvision sight = false) ->
   forall superUpdateSource,
     updateSource superUpdateSource actor sight options st
     = superUpdateSource args st)
  /\ ((forall a : ActorPF2e, actor = Some a -> Actor.type a <> "npc"%string) ->
      hasLowLightVision sight = true \/ hasDarkvision sight = true ->
      exists m : Qc,
        (d <= m)%Qc /\ (b <= m)%Qc /\ (m = d \/ m = b)
        /\ forall superUpdateSource,
             updateSource superUpdateSource actor sight options st
             = setDim
                 (setBright
                    (superUpdateSource args
                       (mkTokenState (Light.mk (int 0) (Num m)) (host st)))
                    (Num b))
                 (Num d)).
Proof.
  intros Hlight given args. split.
  - intros Hcase super. unfold updateSource. fold given. fold args.
    destruct Hcase as [[a [-> Ha]]|[Hl Hd]].
    + now rewrite Ha.
    + rewrite Hl, Hd. cbn. now rewrite orb_true_r.
  - intros Hnpc Hsight.
    exists (Qcmax d b). split; [|split; [|split]].
    + apply Qcmax_le_l.
    + apply Qcmax_le_r.
    + destruct (Qcmax_cases d b) as [[_ ->]|[_ ->]]; auto.
    + intros super. unfold updateSource. fold given. fold args.
      assert (Hcond : (match actor with
                       | Some a => String.eqb (Actor.type a) "npc"
                       | None => false
                       end
                       || negb (hasLowLightVision sight || hasDarkvision sight))
                      = false).
      { apply orb_false_iff. split.
        - destruct actor as [a|]; [|reflexivity].
          apply String.eqb_neq. now apply Hnpc.
        - apply negb_false_iff, orb_true_iff. exact Hsight. }
      rewrite Hcond, Hlight. reflexivity.
Qed.

End UpdateSourceProperties.

(** ** Properties of showFloatyText *)

Section FloatyText.

Context {format : NumberFormat}.

Local Open Scope Qc_scope.

Ltac to_Q :=
  unfold Qcle, Qclt, Qcdiv, Qcminus, Qcplus, Qcmult, Qcopp, Q2Qc in *;
  cbn [this] in *; rewrite ?Qred_correct in *.

Lemma Qcmin_cases (p q : Qc) :
  (p <= q /\ Qcmin p q = p) \/ (q < p /\ Qcmin p q = q).
Proof.
  unfold Qcmin. destruct (p ?= q) eqn:Hc.
  - left. split; [|reflexivity]. apply Qceq_alt in Hc. subst. apply Qcle_refl.
  - left. split; [|reflexivity]. apply Qclt_le_weak. now apply Qclt_alt.
  - right. split; [|reflexivity]. now apply Qcgt_alt.
Qed.

Lemma truthy_Num (q : Qc) : truthy (Num q) = true <-> q <> 0.
Proof.
  unfold truthy. rewrite Qceq_alt.
  destruct (q ?= 0); split; congruence.
Qed.

Lemma truthy_false (n : number) :
  truthy n = false <-> n = NaN \/ n = Num 0.
Proof.
  destruct n as [|q].
  - split; auto.
  - split.
    + intros H. right. f_equal.
      destruct (Qc_eq_dec q 0) as [Hq|Hq]; [exact Hq|].
      apply truthy_Num in Hq. congruence.
    + intros [H|H]; [discriminate|]. now inversion H.
Qed.

(** The absolute value of a rational that is not zero. *)
Lemma nabs_Num (q : Qc) :
  q <> 0 ->
  exists a : Qc,
    nabs (Num q) = Num a /\ 0 < a /\ forall m : Qc, m <= a <-> m <= q \/ m <= - q.
Proof.
  intros Hq. unfold nabs. destruct (q ?= 0) eqn:Hc.
  - apply Qceq_alt in Hc. contradiction.
  - apply Qclt_alt in Hc. exists (- q). split; [reflexivity|].
    split; [to_Q; lra|]. intros m. split; [auto|].
    intros [H|H]; [|exact H]. to_Q. lra.
  - apply Qcgt_alt in Hc. exists q. split; [reflexivity|].
    split; [exact Hc|]. intros m. split; [auto|].
    intros [H|H]; [exact H|]. to_Q. lra.
Qed.

(** The share of the hit points as [showFloatyText] clamps it. *)
Lemma clamped_share (a m : Qc) :
  0 < a ->
  exists p : Qc,
    clamped (divide (Num a) (Num m)) 0 1 = Num p
    /\ 0 <= p /\ p <= 1
    /\ (p = 1 <-> 0 <= m /\ m <= a).
Proof.
  intros Ha. unfold divide. destruct (m ?= 0) eqn:Hm.
  - apply Qceq_alt in Hm. subst m.
    assert (Hgt : (a ?= 0) = Gt) by now apply Qcgt_alt.
    rewrite Hgt. exists 1. cbn [clamped].
    split; [reflexivity|]. split; [discriminate|]. split; [apply Qcle_refl|].
    split; [intros _|reflexivity].
    split; [apply Qcle_refl|now apply Qclt_le_weak].
  - apply Qclt_alt in Hm. cbn [clamped].
    assert (Hneg : a / m <= 0).
    { apply Qcnot_lt_le. intros Hpos.
      assert (H : 0 * - m < a / m * - m).
      { apply Qcmult_lt_compat_r; [to_Q; lra|exact Hpos]. }
      replace (a / m * - m) with (- a) in H
        by (field; intros ->; now apply (Qclt_not_eq _ _ Hm)).
      rewrite Qcmult_0_l in H. to_Q. lra. }
    exists 0.
    destruct (Qcmax_cases (a / m) 0) as [[Hle Hmax]|[Hlt Hmax]]; rewrite Hmax.
    + assert (Hz : a / m = 0) by now apply Qcle_antisym.
      rewrite Hz. split; [reflexivity|].
      split; [apply Qcle_refl|]. split; [discriminate|].
      split; [discriminate|]. intros [H0 _]. to_Q. lra.
    + split; [reflexivity|].
      split; [apply Qcle_refl|]. split; [discriminate|].
      split; [discriminate|]. intros [H0 _]. to_Q. lra.
  - apply Qcgt_alt in Hm. cbn [clamped].
    assert (Hm0 : m <> 0) by (intros ->; now apply (Qclt_not_eq _ _ Hm)).
    assert (Hback : a / m * m = a) by (field; exact Hm0).
    assert (Hpos : 0 <= a / m).
    { apply Qcmult_lt_0_le_reg_r with (z := m); [exact Hm|].
      rewrite Hback, Qcmult_0_l. now apply Qclt_le_weak. }
    assert (Hone : 1 <= a / m <-> m <= a).
    { split; intros H.
      - rewrite <- Hback, <- (Qcmult_1_l m) at 1.
        apply Qcmult_le_compat_r; [exact H|now apply Qclt_le_weak].
      - apply Qcmult_lt_0_le_reg_r with (z := m); [exact Hm|].
        now rewrite Hback, Qcmult_1_l. }
    assert (Hmax : Qcmax (a / m) 0 = a / m).
    { destruct (Qcmax_cases (a / m) 0) as [[_ H]|[Hlt _]]; [exact H|].
      now apply Qclt_not_le in Hlt. }
    rewrite Hmax.
    destruct (Qcmin_cases 1 (a / m)) as [[Hle Hmin]|[Hlt Hmin]]; rewrite Hmin.
    + exists 1. split; [reflexivity|]. split; [discriminate|].
      split; [apply Qcle_refl|]. split; [intros _|reflexivity].
      split; [now apply Qclt_le_weak|now apply Hone].
    + exists (a / m). split; [reflexivity|]. split; [exact Hpos|].
      split; [now apply Qclt_le_weak|]. split.
      * intros H. rewrite H in Hlt. now apply Qclt_not_eq in Hlt.
      * intros [_ H]. apply Hone in H. now apply Qclt_not_le in Hlt.
Qed.

Lemma fontSize_bounds (p : Qc) :
  0 <= p -> p <= 1 ->
  Q2Qc (inject_Z 16) <= Q2Qc (inject_Z 16) + Q2Qc (inject_Z 32) * p
  /\ Q2Qc (inject_Z 16) + Q2Qc (inject_Z 32) * p <= Q2Qc (inject_Z 48).
Proof. intros H0 H1. to_Q. unfold inject_Z in *. split; lra. Qed.

Lemma fontSize_full (p : Qc) :
  Q2Qc (inject_Z 16) + Q2Qc (inject_Z 32) * p = Q2Qc (inject_Z 48) <-> p = 1.
Proof.
  split.
  - intros H. apply Qc_is_canon.
    assert (H' : (this (Q2Qc (inject_Z 16) + Q2Qc (inject_Z 32) * p)
                  == this (Q2Qc (inject_Z 48)))%Q) by (rewrite H; reflexivity).
    clear H. to_Q. unfold inject_Z in *. lra.
  - intros ->. now apply Qc_is_canon.
Qed.

(** The text for a change of hit points, when there is one. *)
Lemma scrollingTextArgs_quantity (maxHP : Qc) (quantity : number)
    (text : string) (style : TextStyle.t) :
  scrollingTextArgs (Some (Num maxHP)) (inl quantity) = Some (text, style) ->
  exists q p : Qc,
    quantity = Num q /\ q <> 0
    /\ TextStyle.fontSize style
       = Num (Q2Qc (inject_Z 16) + Q2Qc (inject_Z 32) * p)
    /\ 0 <= p /\ p <= 1
    /\ (p = 1 <-> 0 <= maxHP /\ (maxHP <= q \/ maxHP <= - q)).
Proof.
  unfold scrollingTextArgs.
  destruct (truthy quantity) eqn:Htruthy; [|discriminate]. cbn [negb].
  destruct quantity as [|q]; [discriminate|].
  apply truthy_Num in Htruthy.
  destruct (nabs_Num Htruthy) as [a [Habs [Ha Hle]]].
  destruct (clamped_share maxHP Ha) as [p [Hp [Hp0 [Hp1 Hfull]]]].
  rewrite Habs, Hp. intros H. inversion H; subst. cbn [TextStyle.fontSize].
  exists q, p. split; [reflexivity|]. split; [exact Htruthy|].
  split; [reflexivity|]. split; [exact Hp0|]. split; [exact Hp1|].
  now rewrite Hfull, Hle.
Qed.

(** X10. The text for a change of hit points is between 16 and 48 in font
    size, whatever the change and whatever number the actor's maximum hit
    points are, zero and negative numbers included. *)
Theorem scrollingTextArgs_fontSize_range (maxHP : Qc) (quantity : number)
    (text : string) (style : TextStyle.t) :
  scrollingTextArgs (Some (Num maxHP)) (inl quantity) = Some (text, style) ->
  exists size : Qc,
    TextStyle.fontSize style = Num size
    /\ Q2Qc (inject_Z 16) <= size /\ size <= Q2Qc (inject_Z 48).
Proof.
  intros H.
  destruct (scrollingTextArgs_quantity _ _ H) as [q [p [_ [_ [Hsize [Hp0 [Hp1 _]]]]]]].
  exists (Q2Qc (inject_Z 16) + Q2Qc (inject_Z 32) * p).
  split; [exact Hsize|]. now apply fontSize_bounds.
Qed.

Lemma clamped_share_negative (a m : Qc) :
  0 < a -> m < 0 -> clamped (divide (Num a) (Num m)) 0 1 = Num 0.
Proof.
  intros Ha Hm. unfold divide.
  assert (Hc : (m ?= 0) = Lt) by now apply Qclt_alt.
  rewrite Hc. cbn [clamped].
  assert (Hneg : a / m <= 0).
  { apply Qcnot_lt_le. intros Hpos.
    assert (H : 0 * - m < a / m * - m).
    { apply Qcmult_lt_compat_r; [to_Q; lra|exact Hpos]. }
    replace (a / m * - m) with (- a) in H
      by (field; intros ->; now apply (Qclt_not_eq _ _ Hm)).
    rewrite Qcmult_0_l in H. to_Q. lra. }
  f_equal.
  destruct (Qcmax_cases (a / m) 0) as [[Hle Hmax]|[Hlt Hmax]]; rewrite Hmax.
  - assert (Hz : a / m = 0) by now apply Qcle_antisym.
    rewrite Hz. reflexivity.
  - reflexivity.
Qed.

(** X11. A change at least as large, in either direction, as a positive
    maximum of hit points is shown at the full size of 48; with a negative
    maximum every change is shown at the smallest size of 16. *)
Theorem scrollingTextArgs_fontSize_full (maxHP q : Qc)
    (text : string) (style : TextStyle.t) :
  scrollingTextArgs (Some (Num maxHP)) (inl (Num q)) = Some (text, style) ->
  (0 < maxHP -> maxHP <= q \/ maxHP <= - q ->
   TextStyle.fontSize style = int 48)
  /\ (maxHP < 0 -> TextStyle.fontSize style = int 16).
Proof.
  intros H.
  assert (Hargs := H). unfold scrollingTextArgs in Hargs.
  destruct (truthy (Num q)) eqn:Htruthy; [|discriminate]. cbn [negb] in Hargs.
  apply truthy_Num in Htruthy.
  destruct (nabs_Num Htruthy) as [a [Habs [Ha Hle]]].
  rewrite Habs in Hargs.
  split.
  - intros Hpos Hlarge.
    destruct (scrollingTextArgs_quantity _ _ H)
      as [q' [p [Hq [_ [Hsize [_ [_ Hfull]]]]]]].
    assert (Hq' : q' = q)
      by exact (f_equal (fun n => match n with Num x => x | NaN => 0 end)
                  (eq_sym Hq)).
    subst q'.
    assert (Hp : p = 1).
    { apply Hfull. split; [now apply Qclt_le_weak|exact Hlarge]. }
    rewrite Hsize, Hp. reflexivity.
  - intros Hneg.
    rewrite (clamped_share_negative Ha Hneg) in Hargs.
    inversion Hargs; subst. cbn [TextStyle.fontSize].
    reflexivity.
Qed.

(** X12. No text is shown for a change of hit points exactly when the
    change is 0 or not a number, or the actor has no numeric maximum of hit
    points; a change of a condition always gives a text. *)
Theorem scrollingTextArgs_null (maxHP : option number)
    (params : number + Floaty.EffectParams) :
  scrollingTextArgs maxHP params = None
  <-> exists quantity : number,
        params = inl quantity
        /\ (quantity = NaN \/ quantity = Num 0 \/ maxHP = None).
Proof.
  destruct params as [quantity|params].
  - unfold scrollingTextArgs. split.
    + intros H. exists quantity. split; [reflexivity|].
      destruct maxHP as [m|]; [|auto].
      destruct (truthy quantity) eqn:Htruthy; [discriminate|].
      apply truthy_false in Htruthy. tauto.
    + intros [quantity' [Heq H]]. inversion Heq; subst quantity'.
      destruct maxHP as [m|]; [|reflexivity].
      assert (Hfalse : truthy quantity = false).
      { apply truthy_false. destruct H as [H|[H|H]]; auto. discriminate. }
      now rewrite Hfalse.
  - split.
    + unfold scrollingTextArgs. destruct (Floaty.firstEntry params). discriminate.
    + intros [quantity [H _]]. discriminate.
Qed.

(** X13. The text for a change of a condition. It begins with a plus sign
    and is anchored at the top exactly when the condition is created; an
    update is shown exactly like a removal; and a value that is 0 or not a
    number is left out of the text like a missing one. *)
Theorem scrollingTextArgs_effect (maxHP : option number) :
  (forall params : Floaty.EffectParams,
      exists (text : string) (style : TextStyle.t),
        scrollingTextArgs maxHP (inr params) = Some (text, style)
        /\ (String.prefix "+ " text = true <-> exists d, params = Floaty.create d)
        /\ (String.prefix "- " text = true <-> ~ exists d, params = Floaty.create d)
        /\ (TextStyle.anchor style = ANCHOR_TOP <-> exists d, params = Floaty.create d))
  /\ (forall d : Floaty.Effect,
        scrollingTextArgs maxHP (inr (Floaty.update d))
        = scrollingTextArgs maxHP (inr (Floaty.delete d)))
  /\ (forall (name : string) (v : number)
             (change : Floaty.Effect -> Floaty.EffectParams),
        change = Floaty.create \/ change = Floaty.update \/ change = Floaty.delete ->
        truthy v = false ->
        scrollingTextArgs maxHP (inr (change (Floaty.mkEffect name (Some v))))
        = scrollingTextArgs maxHP (inr (change (Floaty.mkEffect name None)))).
Proof.
  split; [|split].
  - assert (Hempty : forall s : string, String.prefix "" s = true)
      by (intros s; now destruct s).
    intros [d|d|d]; eexists; eexists; (split; [reflexivity|]); cbn;
      rewrite ?Hempty.
    + split; [|split].
      * split; [eauto|reflexivity].
      * split; [discriminate|]. intros H. exfalso. apply H. eauto.
      * split; [eauto|reflexivity].
    + split; [|split]; split; try discriminate;
        try (intros [e He]; discriminate He); try reflexivity.
      intros _ [e He]. discriminate He.
    + split; [|split]; split; try discriminate;
        try (intros [e He]; discriminate He); try reflexivity.
      intros _ [e He]. discriminate He.
  - reflexivity.
  - intros name v change Hchange Hv.
    destruct Hchange as [Hc | [Hc | Hc]]; subst change; cbn; now rewrite Hv.
Qed.

End FloatyText.

(** ** The scan of isFlanking *)

Section FlankingScan.

Context {utils : FoundryUtils} {units : GridUnits}.

(** X14. The flanker and the flankee never serve as the flanking buddy:
    [isFlanking] answers the same on a canvas from which every entry that is
    the flanker or the flankee has been taken off the list of placed
    tokens. *)
Theorem isFlanking_without_pair (canvas canvas' : Canvas) (A F : TokenPF2e) :
  Canvas.dimensions canvas' = Canvas.dimensions canvas ->
  Canvas.grid canvas' = Canvas.grid canvas ->
  Canvas.placeables (Canvas.tokens canvas')
  = filter (fun t => negb (Token.same t A) && negb (Token.same t F))
      (Canvas.placeables (Canvas.tokens canvas)) ->
  isFlanking canvas' A F = isFlanking canvas A F.
Proof.
  intros Hdim Hgrid Htokens.
  assert (Hiff : isFlanking canvas' A F = Ok true <-> isFlanking canvas A F = Ok true).
  { rewrite !isFlanking_true_iff, Htokens.
    rewrite !(canFlankVerdict_canvas canvas canvas' _ _ Hdim Hgrid).
    split; intros [HA [B [Hin [Hne [HB Harr]]]]]; (split; [exact HA|]);
      exists B; rewrite (canFlankVerdict_canvas canvas canvas' _ _ Hdim Hgrid) in *.
    - apply filter_In in Hin. tauto.
    - split; [|tauto]. apply filter_In. split; [exact Hin|].
      rewrite Hne. cbn.
      unfold canFlankVerdict in HB. rewrite !andb_true_iff in HB. tauto. }
  destruct (isFlanking_Ok canvas A F) as [H|H],
           (isFlanking_Ok canvas' A F) as [H'|H']; try congruence.
  - apply Hiff in H. congruence.
  - apply Hiff in H'. congruence.
Qed.

End FlankingScan.

(** ** The further properties on the reference scene *)

Section MoreScenarios.

Import Reference.
Import Examples.

#[local] Existing Instance Reference.utils.
#[local] Existing Instance Reference.units.
#[local] Existing Instance Examples.format.

(** Hero A can flank the monster: they are two tokens. *)
Lemma canFlank_true_iff_witness :
  canFlank squareScene heroA foe = Ok true
  /\ Token.oid heroA <> Token.oid foe.
Proof.
  assert (H : canFlank squareScene heroA foe = Ok true)
    by (vm_compute; reflexivity).
  split; [exact H|].
  exact (proj1 (proj1 (canFlank_true_iff squareScene heroA foe) H)).
Defined.

(** Hero A still flanks the monster after the giant is placed. *)
Lemma isFlanking_more_tokens_witness :
  isFlanking squareScene heroA foe = Ok true
  /\ isFlanking crowdedScene heroA foe = Ok true.
Proof.
  assert (H : isFlanking squareScene heroA foe = Ok true)
    by (vm_compute; reflexivity).
  split; [exact H|].
  apply (isFlanking_more_tokens squareScene crowdedScene heroA foe);
    [reflexivity|reflexivity| |exact H].
  intros t Ht. right. exact Ht.
Defined.

(** Listing the tokens in another order changes nothing. *)
Lemma isFlanking_same_tokens_witness :
  isFlanking shuffledScene heroA foe = isFlanking squareScene heroA foe.
Proof.
  apply (isFlanking_same_tokens squareScene shuffledScene heroA foe);
    [reflexivity|reflexivity|].
  intros t. cbn. tauto.
Defined.

(** Hero A flanks the monster through a third token. *)
Lemma isFlanking_three_tokens_witness :
  isFlanking squareScene heroA foe = Ok true
  /\ exists B : TokenPF2e,
       Token.oid B <> Token.oid heroA /\ Token.oid B <> Token.oid foe.
Proof.
  assert (H : isFlanking squareScene heroA foe = Ok true)
    by (vm_compute; reflexivity).
  split; [exact H|].
  destruct (isFlanking_three_tokens squareScene heroA foe H)
    as [_ [B [_ [HA [HF _]]]]].
  exists B. split; [exact HA|exact HF].
Defined.

(** Hero A flanks the monster, and so does the buddy. *)
Lemma isFlanking_mutual_witness :
  isFlanking squareScene heroA foe = Ok true
  /\ exists B : TokenPF2e,
       Token.oid B <> Token.oid heroA
       /\ isFlanking squareScene B foe = Ok true.
Proof.
  assert (H : isFlanking squareScene heroA foe = Ok true)
    by (vm_compute; reflexivity).
  split; [exact H|].
  destruct (@isFlanking_mutual Reference.utils Reference.units squareScene heroA foe
              ReferenceFacts.circleTest_sym ReferenceFacts.segmentTest_sym
              (or_introl eq_refl) H)
    as [B [_ [Hne [_ HB]]]].
  exists B. split; [exact Hne|exact HB].
Defined.

(** Before the scene is ready hero A does not flank the monster. *)
Lemma isFlanking_unready_witness :
  Canvas.dimensions unreadyScene = None
  /\ isFlanking unreadyScene heroA foe = Ok false.
Proof.
  split; [reflexivity|].
  apply (isFlanking_unready unreadyScene heroA foe). reflexivity.
Defined.

(** With the flanker and the flankee off the list hero A flanks as before. *)
Lemma isFlanking_without_pair_witness :
  isFlanking buddyScene heroA foe = isFlanking squareScene heroA foe.
Proof.
  apply (isFlanking_without_pair squareScene buddyScene heroA foe);
    reflexivity.
Defined.

(** A hero of one cell of 100 pixels: the rectangle is a point. *)
Lemma tokenRect_sides_witness :
  Rectangle.right (tokenRect (int 100) heroA)
  = Rectangle.left (tokenRect (int 100) heroA)
  /\ Rectangle.bottom (tokenRect (int 100) heroA)
     = Rectangle.top (tokenRect (int 100) heroA).
Proof.
  destruct (@tokenRect_sides heroA (Q2Qc (inject_Z 0)) (Q2Qc (inject_Z 100))
              (Q2Qc (inject_Z 100)) (Q2Qc (inject_Z 100)) (Q2Qc (inject_Z 100))
              eq_refl eq_refl eq_refl eq_refl) as [_ [_ [_ [_ [Hw Hh]]]]].
  split; [exact (Hw eq_refl)|exact (Hh eq_refl)].
Defined.

(** The torch of a hero is as before although the inherited method switched
    the light off. *)
Lemma updateSource_restores_light_witness :
  light (updateSource recordLight (Some hero) partySight None torch) = light torch.
Proof.
  apply (proj1 (updateSource_restores_light recordLight (Some hero) partySight
                  None torch)).
  - intros a Ha. inversion Ha; subst a. discriminate.
  - left. reflexivity.
Defined.

(** The inherited method is given the torch of a hero as bright to 40. *)
Lemma updateSource_raises_light_witness :
  host (updateSource recordLight (Some hero) partySight None torch)
  = [Light.mk (int 0) (int 40)].
Proof.
  destruct (proj2 (@updateSource_raises_light (list Light.t) (Some hero) partySight
                     None torch (Q2Qc (inject_Z 40)) (Q2Qc (inject_Z 20)) eq_refl))
    as [m [_ [_ [_ Hrun]]]].
  - intros a Ha. inversion Ha; subst a. discriminate.
  - left. reflexivity.
  - vm_compute. reflexivity.
Defined.

(** A loss of 5 of 20 hit points is shown at a size between 16 and 48. *)
Lemma scrollingTextArgs_fontSize_range_witness :
  exists (text : string) (style : TextStyle.t) (size : Qc),
    scrollingTextArgs (Some (int 20)) (inl (int (-5))) = Some (text, style)
    /\ TextStyle.fontSize style = Num size
    /\ (Q2Qc (inject_Z 16) <= size)%Qc /\ (size <= Q2Qc (inject_Z 48))%Qc.
Proof.
  assert (H : scrollingTextArgs (Some (int 20)) (inl (int (-5)))
              = Some (signedString (int (-5)),
                      TextStyle.mk ANCHOR_TOP None (Num (Q2Qc (1 # 4)))
                        (FillColour 16711680) (int 24) 0 (int 4))).
  { reflexivity. }
  destruct (scrollingTextArgs_fontSize_range (Q2Qc (inject_Z 20)) (int (-5)) H)
    as [size [Hsize Hbounds]].
  exists (signedString (int (-5))). eexists. exists size.
  split; [exact H|]. split; [exact Hsize|exact Hbounds].
Defined.

(** A loss of 25 of 20 hit points is shown at full size. *)
Lemma scrollingTextArgs_fontSize_full_witness :
  exists (text : string) (style : TextStyle.t),
    scrollingTextArgs (Some (int 20)) (inl (int (-25))) = Some (text, style)
    /\ TextStyle.fontSize style = int 48.
Proof.
  assert (H : scrollingTextArgs (Some (int 20)) (inl (int (-25)))
              = Some (signedString (int (-25)),
                      TextStyle.mk ANCHOR_TOP None (Num (Q2Qc (1 # 4)))
                        (FillColour 16711680) (int 48) 0 (int 4))).
  { reflexivity. }
  eexists. eexists. split; [exact H|].
  apply (proj1 (scrollingTextArgs_fontSize_full (Q2Qc (inject_Z 20))
                  (Q2Qc (inject_Z (-25))) H)).
  - reflexivity.
  - right. discriminate.
Defined.

(** No text for a change of 0 hit points. *)
Lemma scrollingTextArgs_null_witness :
  scrollingTextArgs (Some (int 20)) (inl (int 0)) = None.
Proof.
  apply (proj2 (scrollingTextArgs_null (Some (int 20)) (inl (int 0)))).
  exists (int 0). split; [reflexivity|]. right. left. reflexivity.
Defined.

(** A condition of value 0 is shown without the value. *)
Lemma scrollingTextArgs_effect_witness :
  scrollingTextArgs None (inr (Floaty.create (frightened (Some (int 0)))))
  = scrollingTextArgs None (inr (Floaty.create (frightened None))).
Proof.
  apply (proj2 (proj2 (scrollingTextArgs_effect None))
           "Frightened"%string (int 0) Floaty.create).
  - left. reflexivity.
  - reflexivity.
Defined.

End MoreScenarios.
